(** * Coordinate normalisation pipeline (normalising.py): a shallow embedding

    The script turns WGS84 latitude/longitude pairs into features: a haversine
    distance, projected planar coordinates, a sine/cosine encoding and a
    min-max scaling of the projected coordinates.

    Python's [float] is IEEE 754 binary64, which is what Rocq's primitive
    [float] is: additions, subtractions, multiplications, divisions and square
    roots below are the very operations the interpreter performs.  The
    transcendental functions of the C library ([sin], [cos], [asin], [pow])
    have no Rocq counterpart; they are fields of a record [Libm], and CPython's
    wrappers around them ([math.sin], [float.__pow__], ...) are written out. *)

From Stdlib Require Import Floats ZArith List String Bool Lia.
Import ListNotations.


Local Open Scope string_scope.
Local Open Scope list_scope.
Local Open Scope float_scope.

(** ** Results of Python calls *)

(** The exceptions the script can meet, and [InvalidCoordinate], the error
    the specification names for a rejected coordinate. *)
Inductive exception : Type :=
| ValueError
| OverflowError
| KeyError
| InvalidCoordinate.

Inductive outcome (A : Type) : Type :=
| Returns (a : A)
| Raises (e : exception).

Arguments Returns {A} a.
Arguments Raises {A} e.

Definition bind {A B : Type} (c : outcome A) (k : A -> outcome B) : outcome B :=
  match c with
  | Returns a => k a
  | Raises e => Raises e
  end.

Notation "x <- c ;; k" := (bind c (fun x => k))
  (at level 61, c at next level, right associativity).

(** ** The C library *)

Inductive errno : Type := ENone | EDOM | ERANGE.

(** [c_pow_errno x y] is the value [pow x y] leaves in [errno]. *)
Record Libm : Type := {
  c_sin : float -> float;
  c_cos : float -> float;
  c_asin : float -> float;
  c_pow : float -> float -> float;
  c_pow_errno : float -> float -> errno
}.

(** ** CPython's float operations *)

(** [Py_MATH_PI] and [degToRad = Py_MATH_PI / 180.0] of mathmodule.c. *)
Definition Py_MATH_PI : float := 0x1.921fb54442d18p+1.
Definition degToRad : float := Py_MATH_PI / 180.

(** [math.radians]. *)
Definition radians (x : float) : float := x * degToRad.

(** [math_1] of mathmodule.c: the wrapper of the one-argument functions.  A
    NaN result for a non-NaN argument, or an infinite result for a finite
    argument, is an error.  (Its last test, on [errno] after a finite result,
    is left out: sin, cos, asin and sqrt set [errno] only with a NaN.) *)
Definition math_1 (func : float -> float) (can_overflow : bool) (x : float)
  : outcome float :=
  let r := func x in
  if is_nan r && negb (is_nan x) then Raises ValueError
  else if is_infinity r && is_finite x then
    Raises (if can_overflow then OverflowError else ValueError)
  else Returns r.

Definition math_sin (M : Libm) : float -> outcome float := math_1 (c_sin M) false.
Definition math_cos (M : Libm) : float -> outcome float := math_1 (c_cos M) false.
Definition math_asin (M : Libm) : float -> outcome float := math_1 (c_asin M) false.
Definition math_sqrt : float -> outcome float := math_1 PrimFloat.sqrt false.

(** [float_pow] of floatobject.c at the exponent [2] the script uses
    ([x ** 2]: the integer is converted to [2.0], which is neither zero, NaN
    nor infinite, is positive and is an even integer). *)
Definition float_pow_2 (M : Libm) (iv : float) : outcome float :=
  if is_nan iv then Returns iv
  else if is_infinity iv then Returns (abs iv)
  else if iv =? 0 then Returns 0
  else
    let iv := if iv <? 0 then - iv else iv in
    if iv =? 1 then Returns 1
    else
      let ix := c_pow M iv 2 in
      (* _Py_ADJUST_ERANGE1 *)
      let e :=
        match c_pow_errno M iv 2 with
        | ENone => if is_infinity ix then ERANGE else ENone
        | ERANGE => if ix =? 0 then ENone else ERANGE
        | EDOM => EDOM
        end in
      match e with
      | ENone => Returns ix
      | ERANGE => Raises OverflowError
      | EDOM => Raises ValueError
      end.

(** ** Haversine distance (normalising.py, lines 46-65) *)

(** The value bound to [a] at line 61.  The operands are evaluated from left
    to right, so the first failing call decides the exception. *)
Definition haversine_a (M : Libm) (lat1 lon1 lat2 lon2 : float) : outcome float :=
  let lat1_rad := radians lat1 in
  let lon1_rad := radians lon1 in
  let lat2_rad := radians lat2 in
  let lon2_rad := radians lon2 in
  let dlon := lon2_rad - lon1_rad in
  let dlat := lat2_rad - lat1_rad in
  s1 <- math_sin M (dlat / 2) ;;
  p1 <- float_pow_2 M s1 ;;
  c1 <- math_cos M lat1_rad ;;
  c2 <- math_cos M lat2_rad ;;
  s2 <- math_sin M (dlon / 2) ;;
  p2 <- float_pow_2 M s2 ;;
  Returns (p1 + c1 * c2 * p2).

Definition calculate_haversine_distance (M : Libm) (lat1 lon1 lat2 lon2 : float)
  : outcome float :=
  let Earth_Radius_km := 6371 in
  a <- haversine_a M lat1 lon1 lat2 lon2 ;;
  r <- math_sqrt a ;;
  h <- math_asin M r ;;
  let c := 2 * h in
  let distance := Earth_Radius_km * c in
  Returns distance.

(** The squared sine of line 61, [sin(h)**2]. *)
Definition sq_sin (M : Libm) (h : float) : outcome float :=
  s <- math_sin M h ;; float_pow_2 M s.

(** The WGS84 ranges: latitude within [-90, 90] and longitude within
    [-180, 180]; a NaN is in neither. *)
Definition valid_latitude (lat : float) : bool := (-90 <=? lat) && (lat <=? 90).
Definition valid_longitude (lon : float) : bool := (-180 <=? lon) && (lon <=? 180).

(** What the theorems below ask of the C library (ISO C, Annex F): the sine is
    odd, sin 0 = 0 and asin 0 = 0 exactly, and the cosine of a finite number
    lies within [-1, 1]. *)
Definition sin_odd (M : Libm) : Prop := forall x, c_sin M (- x) = - c_sin M x.
Definition sin_zero (M : Libm) : Prop := c_sin M 0 = 0.
Definition asin_zero (M : Libm) : Prop := c_asin M 0 = 0.
Definition cos_bounded (M : Libm) : Prop :=
  forall x, is_finite x = true -> (abs (c_cos M x) <=? 1) = true.


(** ** scikit-learn's MinMaxScaler (feature_range = (0, 1), clip = False) *)

(** [np.finfo(np.float64).eps]. *)
Definition eps : float := 0x1p-52.

(** numpy's [fmin] and [fmax] loops, which [np.nanmin] and [np.nanmax]
    reduce a float array with. *)
Definition fmin (in1 in2 : float) : float :=
  if (in1 <=? in2) || is_nan in2 then in1 else in2.
Definition fmax (in1 in2 : float) : float :=
  if (in2 <=? in1) || is_nan in2 then in1 else in2.

Definition nanmin (col : list float) : float :=
  match col with
  | [] => nan
  | x :: l => fold_left fmin l x
  end.
Definition nanmax (col : list float) : float :=
  match col with
  | [] => nan
  | x :: l => fold_left fmax l x
  end.

(** [_handle_zeros_in_scale]: the scale of a (near) constant feature is 1. *)
Definition handle_zeros_in_scale (scale : float) : float :=
  if scale <? 10 * eps then 1 else scale.

(** What [fit] keeps of one column. *)
Record ScalerState : Type := {
  data_min_ : float;
  data_max_ : float;
  data_range_ : float;
  scale_ : float;
  min_ : float
}.

(** Input validation ([ensure_all_finite="allow-nan"], at least one sample). *)
Definition validate_data (col : list float) : outcome (list float) :=
  match col with
  | [] => Raises ValueError
  | _ => if existsb is_infinity col then Raises ValueError else Returns col
  end.

(** [MinMaxScaler.partial_fit] on a fresh scaler, one column. *)
Definition fit (X : list float) : outcome ScalerState :=
  X <- validate_data X ;;
  let data_min := nanmin X in
  let data_max := nanmax X in
  let data_range := data_max - data_min in
  let scale := (1 - 0) / handle_zeros_in_scale data_range in
  let min := 0 - data_min * scale in
  Returns {| data_min_ := data_min; data_max_ := data_max;
             data_range_ := data_range; scale_ := scale; min_ := min |}.

(** [MinMaxScaler.transform]: [X *= scale_; X += min_]. *)
Definition transform (st : ScalerState) (X : list float) : outcome (list float) :=
  X <- validate_data X ;;
  Returns (map (fun x => x * scale_ st + min_ st) X).

Definition fit_transform (X : list float) : outcome (list float) :=
  st <- fit X ;; transform st X.


(** ** Tables (pandas DataFrames) *)

Inductive column : Type :=
| IntColumn (l : list Z)
| FloatColumn (l : list float).

Definition column_length (c : column) : nat :=
  match c with
  | IntColumn l => List.length l
  | FloatColumn l => List.length l
  end.

(** The columns in order, each with its name. *)
Definition dataframe : Type := list (string * column).

Definition names (df : dataframe) : list string := map fst df.

Definition nrows (df : dataframe) : nat :=
  match df with
  | [] => 0
  | (_, c) :: _ => column_length c
  end.

(** [pd.DataFrame(dict)]: the columns in the dictionary's order; lists of
    different lengths are refused. *)
Definition DataFrame (data : list (string * column)) : outcome dataframe :=
  if forallb (fun kc => Nat.eqb (column_length (snd kc)) (nrows data)) data
  then Returns data else Raises ValueError.

(** [df[name]]. *)
Fixpoint getitem (df : dataframe) (name : string) : outcome column :=
  match df with
  | [] => Raises KeyError
  | (k, c) :: rest => if String.eqb k name then Returns c else getitem rest name
  end.

(** [df[name] = c]: an existing column is replaced where it stands, a new one
    is appended. *)
Fixpoint set_column (df : dataframe) (name : string) (c : column) : dataframe :=
  match df with
  | [] => [(name, c)]
  | (k, c0) :: rest =>
      if String.eqb k name then (k, c) :: rest else (k, c0) :: set_column rest name c
  end.

Definition setitem (df : dataframe) (name : string) (c : column) : outcome dataframe :=
  if Nat.eqb (column_length c) (nrows df) then Returns (set_column df name c)
  else Raises ValueError.

(** [df[[name1, ...]]]: the listed columns, in the order listed. *)
Fixpoint select (df : dataframe) (cols : list string) : outcome dataframe :=
  match cols with
  | [] => Returns []
  | n :: rest =>
      c <- getitem df n ;;
      r <- select df rest ;;
      Returns ((n, c) :: r)
  end.

(** An integer read as a float (round to nearest even). *)
Definition float_of_Z (z : Z) : float := SF2Prim (binary_normalize prec emax z 0 false).

Definition to_floats (c : column) : list float :=
  match c with
  | IntColumn l => map float_of_Z l
  | FloatColumn l => l
  end.

(** ** The libraries outside the script *)

(** numpy's elementwise [sin] and [cos] and the coordinate transformation
    EPSG:4326 -> EPSG:32618 of geopandas ([to_crs lon lat = (x, y)]). *)
Record Externals : Type := {
  libm : Libm;
  np_sin : float -> float;
  np_cos : float -> float;
  to_crs : float -> float -> float * float
}.

(** [np.deg2rad]. *)
Definition deg2rad (x : float) : float := x * degToRad.

(** ** The script (normalising.py, lines 30-157) *)

Definition trip_data : list (string * column) :=
  [ ("trip_id", IntColumn [1; 2; 3]%Z);
    (* 40.7580, 40.7585, 40.7600 *)
    ("pickup_lat", FloatColumn [0x1.4610624dd2f1bp+5; 0x1.46116872b020cp+5; 0x1.46147ae147ae1p+5]);
    (* -73.9855, -73.9860, -73.9840 *)
    ("pickup_lon", FloatColumn [-0x1.27f126e978d50p+6; -0x1.27f1a9fbe76c9p+6; -0x1.27ef9db22d0e5p+6]);
    (* 40.6900, 40.6905, 40.6920 *)
    ("dropoff_lat", FloatColumn [0x1.45851eb851eb8p+5; 0x1.458624dd2f1aap+5; 0x1.4589374bc6a7fp+5]);
    (* -73.9700, -73.9705, -73.9680 *)
    ("dropoff_lon", FloatColumn [-0x1.27e147ae147aep+6; -0x1.27e1cac083127p+6; -0x1.27df3b645a1cbp+6]) ].

(** [df.apply(lambda row: f(row[..], row[..], row[..], row[..]), axis=1)]:
    row after row, the first failing row raising. *)
Fixpoint apply_rows (f : float -> float -> float -> float -> outcome float)
  (a b c d : list float) : outcome (list float) :=
  match a, b, c, d with
  | x :: a', y :: b', z :: c', w :: d' =>
      v <- f x y z w ;;
      r <- apply_rows f a' b' c' d' ;;
      Returns (v :: r)
  | _, _, _, _ => Returns []
  end.

(** Step 3 (lines 69-75). *)
Definition stage_haversine (E : Externals) (my_data_table : dataframe) : outcome dataframe :=
  pickup_lat <- getitem my_data_table "pickup_lat" ;;
  pickup_lon <- getitem my_data_table "pickup_lon" ;;
  dropoff_lat <- getitem my_data_table "dropoff_lat" ;;
  dropoff_lon <- getitem my_data_table "dropoff_lon" ;;
  distance_km <- apply_rows (calculate_haversine_distance (libm E))
                   (to_floats pickup_lat) (to_floats pickup_lon)
                   (to_floats dropoff_lat) (to_floats dropoff_lon) ;;
  setitem my_data_table "distance_km" (FloatColumn distance_km).

(** Step 4 (lines 89-99). *)
Definition stage_projection (E : Externals) (my_data_table : dataframe) : outcome dataframe :=
  pickup_lon <- getitem my_data_table "pickup_lon" ;;
  pickup_lat <- getitem my_data_table "pickup_lat" ;;
  let geometry_list := combine (to_floats pickup_lon) (to_floats pickup_lat) in
  let projected_data := map (fun xy => to_crs E (fst xy) (snd xy)) geometry_list in
  my_data_table <- setitem my_data_table "pickup_x_meters" (FloatColumn (map fst projected_data)) ;;
  setitem my_data_table "pickup_y_meters" (FloatColumn (map snd projected_data)).

(** Step 5 (lines 113-120). *)
Definition stage_spherical (E : Externals) (my_data_table : dataframe) : outcome dataframe :=
  pickup_lon <- getitem my_data_table "pickup_lon" ;;
  my_data_table <- setitem my_data_table "lon_rad" (FloatColumn (map deg2rad (to_floats pickup_lon))) ;;
  pickup_lat <- getitem my_data_table "pickup_lat" ;;
  my_data_table <- setitem my_data_table "lat_rad" (FloatColumn (map deg2rad (to_floats pickup_lat))) ;;
  lon_rad <- getitem my_data_table "lon_rad" ;;
  my_data_table <- setitem my_data_table "pickup_lon_sin" (FloatColumn (map (np_sin E) (to_floats lon_rad))) ;;
  lon_rad <- getitem my_data_table "lon_rad" ;;
  my_data_table <- setitem my_data_table "pickup_lon_cos" (FloatColumn (map (np_cos E) (to_floats lon_rad))) ;;
  lat_rad <- getitem my_data_table "lat_rad" ;;
  my_data_table <- setitem my_data_table "pickup_lat_sin" (FloatColumn (map (np_sin E) (to_floats lat_rad))) ;;
  lat_rad <- getitem my_data_table "lat_rad" ;;
  setitem my_data_table "pickup_lat_cos" (FloatColumn (map (np_cos E) (to_floats lat_rad))).

(** Step 6 (lines 134-139): each selected column is fitted and scaled on its own. *)
Definition stage_scaling (my_data_table : dataframe) : outcome dataframe :=
  selected <- select my_data_table ["pickup_x_meters"; "pickup_y_meters"] ;;
  pickup_x_meters <- getitem selected "pickup_x_meters" ;;
  pickup_y_meters <- getitem selected "pickup_y_meters" ;;
  pickup_x_scaled <- fit_transform (to_floats pickup_x_meters) ;;
  pickup_y_scaled <- fit_transform (to_floats pickup_y_meters) ;;
  my_data_table <- setitem my_data_table "pickup_x_scaled" (FloatColumn pickup_x_scaled) ;;
  setitem my_data_table "pickup_y_scaled" (FloatColumn pickup_y_scaled).

(** Step 7 (lines 150-157). *)
Definition final_columns : list string :=
  [ "trip_id"; "pickup_lat"; "pickup_lon"; "distance_km";
    "pickup_x_meters"; "pickup_y_meters";
    "pickup_lon_sin"; "pickup_lon_cos";
    "pickup_x_scaled"; "pickup_y_scaled" ].

Definition final_output (my_data_table : dataframe) : outcome dataframe :=
  select my_data_table final_columns.

(** The whole script on the table [data]: the table at the end and the
    table it prints. *)
Definition run_script (E : Externals) (data : list (string * column))
  : outcome (dataframe * dataframe) :=
  my_data_table <- DataFrame data ;;
  my_data_table <- stage_haversine E my_data_table ;;
  my_data_table <- stage_projection E my_data_table ;;
  my_data_table <- stage_spherical E my_data_table ;;
  my_data_table <- stage_scaling my_data_table ;;
  out <- final_output my_data_table ;;
  Returns (my_data_table, out).


(** The columns of the input table, and those the four steps write. *)
Definition input_columns : list string :=
  ["trip_id"; "pickup_lat"; "pickup_lon"; "dropoff_lat"; "dropoff_lon"].

Definition spherical_columns : list string :=
  ["lon_rad"; "lat_rad"; "pickup_lon_sin"; "pickup_lon_cos"; "pickup_lat_sin"; "pickup_lat_cos"].

Definition derived_columns : list string :=
  ["distance_km"; "pickup_x_meters"; "pickup_y_meters"] ++ spherical_columns
  ++ ["pickup_x_scaled"; "pickup_y_scaled"].

(** ** A C library to evaluate with

    At the arguments listed, [libm_sample] returns the correctly rounded
    values of the real functions, which are the values glibc returns there
    (12 degrees in radians, a quarter turn, and the exact cases sin 0 = 0,
    cos 0 = 1, asin 0 = 0, asin 1 = pi/2).  Elsewhere it holds stand-ins of the
    right shape (odd sine, cosine within [-1, 1], NaN outside the domain). *)
Definition rad_12 : float := 0x1.acee9f37bebd6p-3.
Definition sin_rad_12 : float := 0x1.a9cd9ac4258f6p-3.
Definition cos_rad_12 : float := 0x1.f4cfc327a0080p-1.
Definition half_pi : float := 0x1.921fb54442d18p+0.

Definition sample_sin (x : float) : float :=
  if Leibniz.eqb x rad_12 then sin_rad_12
  else if Leibniz.eqb x (- rad_12) then - sin_rad_12
  else if Leibniz.eqb x half_pi then 1
  else if Leibniz.eqb x (- half_pi) then -1
  else if is_infinity x then nan
  else x.

Definition sample_cos (x : float) : float :=
  if Leibniz.eqb x rad_12 then cos_rad_12
  else if Leibniz.eqb x (- rad_12) then cos_rad_12
  else if is_finite x then 1
  else nan.

Definition sample_asin (x : float) : float :=
  if Leibniz.eqb x 1 then half_pi
  else if abs x <=? 1 then x
  else nan.

Definition sample_pow (x y : float) : float :=
  if Leibniz.eqb x sin_rad_12 && Leibniz.eqb y 2 then 0x1.621e288040356p-5
  else x * x.

Definition libm_sample : Libm := {|
  c_sin := sample_sin;
  c_cos := sample_cos;
  c_asin := sample_asin;
  c_pow := sample_pow;
  c_pow_errno := fun _ _ => ENone
|}.


(** Stand-ins for numpy and the projection, to run the script with: a linear
    map in place of the transverse Mercator projection. *)
Definition sample_externals : Externals := {|
  libm := libm_sample;
  np_sin := sample_sin;
  np_cos := sample_cos;
  to_crs := fun lon lat => (500000 + (lon + 75) * 85000, lat * 111000)
|}.


(** ** Further notions *)

(** Two more properties of the C library (ISO C, Annex F): the sine of an
    infinity is NaN, and the cosine is even. *)
Definition sin_inf_nan (M : Libm) : Prop :=
  forall x, is_infinity x = true -> is_nan (c_sin M x) = true.
Definition cos_even (M : Libm) : Prop := forall x, c_cos M (- x) = c_cos M x.



(** The projected pickup points of step 4. *)
Definition projected (E : Externals) (pickup_lon pickup_lat : column) : list (float * float) :=
  map (fun xy => to_crs E (fst xy) (snd xy))
      (combine (to_floats pickup_lon) (to_floats pickup_lat)).

(** The columns the four steps append, from the coordinate columns, the
    distances and the two scaled columns. *)
Definition derived_table (E : Externals) (pickup_lat pickup_lon : column)
  (distance_km pickup_x_scaled pickup_y_scaled : list float) : dataframe :=
  let lon_rad := map deg2rad (to_floats pickup_lon) in
  let lat_rad := map deg2rad (to_floats pickup_lat) in
  [ ("distance_km", FloatColumn distance_km);
    ("pickup_x_meters", FloatColumn (map fst (projected E pickup_lon pickup_lat)));
    ("pickup_y_meters", FloatColumn (map snd (projected E pickup_lon pickup_lat)));
    ("lon_rad", FloatColumn lon_rad);
    ("lat_rad", FloatColumn lat_rad);
    ("pickup_lon_sin", FloatColumn (map (np_sin E) lon_rad));
    ("pickup_lon_cos", FloatColumn (map (np_cos E) lon_rad));
    ("pickup_lat_sin", FloatColumn (map (np_sin E) lat_rad));
    ("pickup_lat_cos", FloatColumn (map (np_cos E) lat_rad));
    ("pickup_x_scaled", FloatColumn pickup_x_scaled);
    ("pickup_y_scaled", FloatColumn pickup_y_scaled) ].


(** [df.head()]: the first five rows. *)
Definition head_column (c : column) : column :=
  match c with
  | IntColumn l => IntColumn (firstn 5 l)
  | FloatColumn l => FloatColumn (firstn 5 l)
  end.

Definition head (df : dataframe) : dataframe :=
  map (fun kc => (fst kc, head_column (snd kc))) df.

(** [print(df[[...]].head())]: what is shown. *)
Definition display (df : dataframe) (cols : list string) : outcome dataframe :=
  selected <- select df cols ;; Returns (head selected).

(** The script with its [print] statements (lines 37-159): the tables shown,
    in order, then the table at the end and the table printed last. *)
Definition run_script_printing (E : Externals) (data : list (string * column))
  : outcome (list dataframe * (dataframe * dataframe)) :=
  my_data_table <- DataFrame data ;;
  shown1 <- display my_data_table ["trip_id"; "pickup_lat"; "pickup_lon"] ;;
  my_data_table <- stage_haversine E my_data_table ;;
  shown2 <- display my_data_table ["trip_id"; "distance_km"] ;;
  my_data_table <- stage_projection E my_data_table ;;
  shown3 <- display my_data_table ["trip_id"; "pickup_x_meters"; "pickup_y_meters"] ;;
  my_data_table <- stage_spherical E my_data_table ;;
  shown4 <- display my_data_table
              ["trip_id"; "pickup_lon_sin"; "pickup_lon_cos"; "pickup_lat_sin"; "pickup_lat_cos"] ;;
  my_data_table <- stage_scaling my_data_table ;;
  shown5 <- display my_data_table ["trip_id"; "pickup_x_scaled"; "pickup_y_scaled"] ;;
  out <- final_output my_data_table ;;
  Returns ([shown1; shown2; shown3; shown4; shown5; out], (my_data_table, out)).


(** ** Notions used in the proofs *)

(** A specification float that is a zero or a finite number. *)
Definition SF_is_finite (x : spec_float) : Prop :=
  match x with S754_zero _ | S754_finite _ _ _ => True | _ => False end.

(** A zero, or a finite number with exponent at most [k]. *)
Definition SF_exp_le (k : Z) (x : spec_float) : Prop :=
  match x with
  | S754_zero _ => True
  | S754_finite _ _ e => (e <= k)%Z
  | _ => False
  end.

(** An order embedding of the floats other than NaN into the integers. *)
Definition SFkey (x : spec_float) : Z :=
  match x with
  | S754_zero _ => 0
  | S754_nan => 0
  | S754_infinity s => cond_Zopp s (2 ^ 64)
  | S754_finite s m e => cond_Zopp s ((e + 1075) * 2 ^ 53 + Z.pos m)
  end.

Definition key (x : float) : Z := SFkey (Prim2SF x).

Definition finite_column (col : list float) : Prop :=
  Forall (fun x => is_finite x = true) col.
(** * Facts on binary64 arithmetic *)

(** ** Classification, negation, commutativity *)

Lemma SFcompare_refl_finite s m e :
  SFcompare (S754_finite s m e) (S754_finite s m e) = Some Eq.
Proof.
  simpl. rewrite Z.compare_refl.
  change (Pos.compare_cont Eq m m) with (Pos.compare m m).
  rewrite Pos.compare_refl. destruct s; reflexivity.
Qed.

Lemma is_nan_spec x : is_nan x = match Prim2SF x with S754_nan => true | _ => false end.
Proof.
  unfold is_nan. rewrite FloatAxioms.eqb_spec. unfold SFeqb.
  destruct (Prim2SF x) as [s|s| |s m e]; try reflexivity.
  - destruct s; reflexivity.
  - rewrite SFcompare_refl_finite. reflexivity.
Qed.

Lemma is_infinity_spec x :
  is_infinity x = match Prim2SF x with S754_infinity _ => true | _ => false end.
Proof.
  unfold is_infinity. rewrite FloatAxioms.eqb_spec, abs_spec. unfold SFeqb.
  change (Prim2SF infinity) with (S754_infinity false).
  destruct (Prim2SF x) as [s|s| |s m e]; reflexivity.
Qed.

Lemma is_finite_spec x :
  is_finite x = match Prim2SF x with S754_zero _ | S754_finite _ _ _ => true | _ => false end.
Proof.
  unfold is_finite. rewrite is_nan_spec, is_infinity_spec.
  destruct (Prim2SF x); reflexivity.
Qed.

Lemma opp_involutive x : - - x = x.
Proof.
  apply Prim2SF_inj. rewrite !opp_spec.
  destruct (Prim2SF x) as [s|s| |s m e]; simpl; rewrite ?negb_involutive; reflexivity.
Qed.

Lemma mul_comm x y : x * y = y * x.
Proof.
  apply Prim2SF_inj. rewrite !mul_spec. unfold SF64mul.
  destruct (Prim2SF x) as [s|s| |s m e], (Prim2SF y) as [s'|s'| |s' m' e'];
    simpl; rewrite ?(xorb_comm s s'); try reflexivity.
  rewrite (Pos.mul_comm m m'), (Z.add_comm e e'). reflexivity.
Qed.

Lemma binary_round_aux_opp s m e l :
  SFopp (binary_round_aux prec emax s m e l) = binary_round_aux prec emax (negb s) m e l.
Proof.
  unfold binary_round_aux.
  destruct (shr_fexp prec emax m e l) as [mrs' e'].
  destruct (shr_fexp prec emax _ e' loc_Exact) as [mrs'' e''].
  destruct (shr_m mrs''); try reflexivity.
  destruct (e'' <=? emax - prec)%Z; reflexivity.
Qed.

Lemma div_opp_l x y : (- x) / y = - (x / y).
Proof.
  apply Prim2SF_inj. rewrite opp_spec, !div_spec, opp_spec. unfold SF64div.
  destruct (Prim2SF x) as [s|s| |s m e], (Prim2SF y) as [s'|s'| |s' m' e'];
    simpl; try reflexivity; try (destruct s, s'; reflexivity).
  destruct (SFdiv_core_binary prec emax (Z.pos m) e (Z.pos m') e') as [[mz ez] lz].
  rewrite binary_round_aux_opp. destruct s, s'; reflexivity.
Qed.

Lemma binary_normalize_opp m e :
  m <> 0%Z ->
  SFopp (binary_normalize prec emax m e false) = binary_normalize prec emax (- m) e false.
Proof.
  destruct m as [|p|p]; intros Hm; [congruence| |]; simpl;
    unfold binary_round;
    destruct (shl_align p e _) as [mz ez]; apply binary_round_aux_opp.
Qed.

Lemma sub_swap x y :
  y - x = - (x - y) \/ (x - y = 0 /\ y - x = 0).
Proof.
  assert (E : Prim2SF (y - x) = SFopp (Prim2SF (x - y))
              \/ (Prim2SF (x - y) = S754_zero false /\ Prim2SF (y - x) = S754_zero false)).
  { rewrite !sub_spec. unfold SF64sub.
    destruct (Prim2SF x) as [s|s| |s m e], (Prim2SF y) as [s'|s'| |s' m' e'];
      try (left; reflexivity);
      try (destruct s, s'; simpl; ((left; reflexivity) || (right; split; reflexivity))).
    cbn [SFsub]. rewrite (Z.min_comm e' e).
    set (a := cond_Zopp s (Z.pos (fst (shl_align m e (Z.min e e'))))).
    set (b := cond_Zopp s' (Z.pos (fst (shl_align m' e' (Z.min e e'))))).
    destruct (Z.eq_dec (a - b) 0) as [E|E].
    - right. replace (b - a)%Z with 0%Z by lia. rewrite E. split; reflexivity.
    - left. rewrite binary_normalize_opp by exact E. f_equal. lia. }
  destruct E as [E|[E1 E2]].
  - left. apply Prim2SF_inj. rewrite opp_spec. exact E.
  - right. split; apply Prim2SF_inj; assumption.
Qed.

Lemma sub_diag x : is_finite x = true -> x - x = 0.
Proof.
  rewrite is_finite_spec. intros H. apply Prim2SF_inj. rewrite sub_spec. unfold SF64sub.
  change (Prim2SF 0) with (S754_zero false).
  destruct (Prim2SF x) as [s|s| |s m e]; try discriminate.
  - destruct s; reflexivity.
  - simpl. rewrite Z.sub_diag. reflexivity.
Qed.

(** ** A product of small numbers does not overflow *)

Lemma Zdigits2_log2 p : Z.pos (digits2_pos p) = (Z.log2 (Z.pos p) + 1)%Z.
Proof.
  induction p as [p IH|p IH|]; simpl digits2_pos; try reflexivity.
  - rewrite Pos2Z.inj_succ, IH.
    change (Z.pos p~1) with (2 * Z.pos p + 1)%Z.
    rewrite Z.log2_succ_double by lia. lia.
  - rewrite Pos2Z.inj_succ, IH.
    change (Z.pos p~0) with (2 * Z.pos p)%Z.
    rewrite Z.log2_double by lia. lia.
Qed.

Lemma Zdigits2_le m k :
  (0 <= k)%Z -> (0 <= m < 2 ^ k)%Z -> (0 <= Zdigits2 m <= k)%Z.
Proof.
  intros Hk [H0 Hm]. destruct m as [|p|p]; simpl; [lia| |lia].
  rewrite Zdigits2_log2.
  assert (Z.log2 (Z.pos p) < k)%Z by (apply Z.log2_lt_pow2; lia).
  pose proof (Z.log2_nonneg (Z.pos p)). lia.
Qed.

Lemma bounded_mantissa m e :
  bounded prec emax m e = true -> (Z.pos m < 2 ^ 53)%Z /\ (e <= 971)%Z.
Proof.
  unfold bounded, canonical_mantissa, fexp, SpecFloat.emin, prec, emax.
  intros H. apply andb_true_iff in H. destruct H as [H1 H2].
  apply Z.eqb_eq in H1. apply Z.leb_le in H2. split; [|lia].
  rewrite Zdigits2_log2 in H1.
  apply Z.log2_lt_pow2; lia.
Qed.

Section IterPos.
Variables (A : Type) (f : A -> A) (P : A -> Prop).
Hypothesis Pf : forall x, P x -> P (f x).

Lemma iter_pos_invariant n : forall x, P x -> P (SpecFloat.iter_pos f n x).
Proof.
  induction n as [n IH|n IH|]; intros x Hx; simpl; auto.
Qed.
End IterPos.

Lemma shr_1_bound B r :
  (0 <= shr_m r <= B)%Z -> (0 <= shr_m (shr_1 r) <= B)%Z.
Proof.
  destruct r as [m r s]. simpl. intros H.
  destruct m as [|[p|p|]|[p|p|]]; simpl; lia.
Qed.

Lemma shr_bound B r e n :
  (0 <= shr_m r <= B)%Z -> (0 <= shr_m (fst (shr r e n)) <= B)%Z.
Proof.
  intros H. destruct n; simpl; auto.
  apply iter_pos_invariant with (P := fun r => (0 <= shr_m r <= B)%Z); auto.
  intros x. apply shr_1_bound.
Qed.

Lemma shr_exp r e n : snd (shr r e n) = Z.max e (e + n).
Proof. destruct n; simpl; lia. Qed.

Lemma shr_m_of_loc m l : shr_m (shr_record_of_loc m l) = m.
Proof. destruct l as [|[]]; reflexivity. Qed.

Lemma round_nearest_even_bound m l :
  (m <= round_nearest_even m l <= m + 1)%Z.
Proof.
  destruct l as [|[]]; simpl; try lia. destruct (Z.even m); lia.
Qed.

Lemma binary_round_aux_no_overflow s m e l :
  (0 <= m < 2 ^ 106)%Z -> (e <= 800)%Z ->
  SF_is_finite (binary_round_aux prec emax s m e l).
Proof.
  intros Hm He. unfold binary_round_aux, shr_fexp.
  set (n1 := (fexp prec emax (Zdigits2 m + e) - e)%Z).
  pose proof (shr_bound (2 ^ 106) (shr_record_of_loc m l) e n1) as B1.
  pose proof (shr_exp (shr_record_of_loc m l) e n1) as E1.
  destruct (shr (shr_record_of_loc m l) e n1) as [mrs' e']. cbn [fst snd] in B1, E1.
  rewrite shr_m_of_loc in B1. specialize (B1 ltac:(lia)).
  pose proof (round_nearest_even_bound (shr_m mrs') (loc_of_shr_record mrs')) as R.
  set (m2 := round_nearest_even (shr_m mrs') (loc_of_shr_record mrs')) in *.
  set (n2 := (fexp prec emax (Zdigits2 m2 + e') - e')%Z).
  pose proof (shr_bound (2 ^ 106 + 1) (shr_record_of_loc m2 loc_Exact) e' n2) as B2.
  pose proof (shr_exp (shr_record_of_loc m2 loc_Exact) e' n2) as E2.
  destruct (shr (shr_record_of_loc m2 loc_Exact) e' n2) as [mrs'' e'']. cbn [fst snd] in B2, E2.
  rewrite shr_m_of_loc in B2. specialize (B2 ltac:(lia)).
  assert (D1 : (0 <= Zdigits2 m <= 106)%Z) by (apply Zdigits2_le; lia).
  assert (D2 : (0 <= Zdigits2 m2 <= 107)%Z).
  { apply Zdigits2_le; [lia|]. change (2 ^ 107)%Z with (2 * 2 ^ 106)%Z. lia. }
  assert (He'' : (e'' <=? emax - prec)%Z = true).
  { apply Z.leb_le. subst n1 n2. unfold fexp, SpecFloat.emin, prec, emax in *. lia. }
  rewrite He''.
  destruct (shr_m mrs'') as [|p|p]; cbn [SF_is_finite]; auto. lia.
Qed.

Lemma SFmul_no_overflow s1 m1 e1 s2 m2 e2 :
  bounded prec emax m1 e1 = true -> bounded prec emax m2 e2 = true ->
  (e1 + e2 <= 800)%Z ->
  SF_is_finite (SF64mul (S754_finite s1 m1 e1) (S754_finite s2 m2 e2)).
Proof.
  intros H1 H2 He. apply bounded_mantissa in H1, H2.
  unfold SF64mul, SFmul. apply binary_round_aux_no_overflow; [|exact He].
  rewrite Pos2Z.inj_mul. change (2 ^ 106)%Z with (2 ^ 53 * 2 ^ 53)%Z. nia.
Qed.

(** ** Ranges and exponents *)

Lemma SF_exp_le_finite k x : SF_exp_le k x -> SF_is_finite x.
Proof. destruct x; simpl; auto. Qed.

Lemma SFleb_abs_exp X mb eb :
  SFleb (SFabs X) (S754_finite false mb eb) = true -> SF_exp_le eb X.
Proof.
  destruct X as [s|s| |s m e]; simpl; auto; try discriminate.
  unfold SFleb. simpl. destruct (Z.compare_spec e eb); try discriminate; lia.
Qed.

Lemma SFleb_range_exp X mb eb :
  SFleb (S754_finite true mb eb) X = true ->
  SFleb X (S754_finite false mb eb) = true -> SF_exp_le eb X.
Proof.
  destruct X as [s|s| |s m e]; simpl; auto; try discriminate.
  - destruct s; discriminate.
  - unfold SFleb. simpl. destruct s; destruct (Z.compare_spec e eb), (Z.compare_spec eb e);
      try discriminate; lia.
Qed.

Lemma abs_le_exp x b mb eb :
  Prim2SF b = S754_finite false mb eb ->
  (abs x <=? b) = true -> SF_exp_le eb (Prim2SF x).
Proof.
  intros Hb H. rewrite leb_spec, abs_spec, Hb in H. eapply SFleb_abs_exp; eauto.
Qed.

Lemma range_exp x b mb eb :
  Prim2SF b = S754_finite false mb eb ->
  (- b <=? x) && (x <=? b) = true -> SF_exp_le eb (Prim2SF x).
Proof.
  intros Hb H. apply andb_true_iff in H. destruct H as [H1 H2].
  rewrite leb_spec, opp_spec, Hb in H1. rewrite leb_spec, Hb in H2.
  eapply SFleb_range_exp; eauto.
Qed.

Lemma mul_finite_exp k1 k2 x y :
  SF_exp_le k1 (Prim2SF x) -> SF_exp_le k2 (Prim2SF y) -> (k1 + k2 <= 800)%Z ->
  is_finite (x * y) = true.
Proof.
  intros Hx Hy Hk. rewrite is_finite_spec, mul_spec.
  pose proof (Prim2SF_valid x) as Vx. pose proof (Prim2SF_valid y) as Vy.
  destruct (Prim2SF x) as [s|s| |s m e], (Prim2SF y) as [s'|s'| |s' m' e'];
    simpl in Hx, Hy; try contradiction; try reflexivity.
  simpl in Vx, Vy.
  pose proof (SFmul_no_overflow s m e s' m' e' Vx Vy ltac:(lia)) as H.
  destruct (SF64mul _ _); simpl in H; try contradiction; reflexivity.
Qed.

Lemma Prim2SF_degToRad : Prim2SF degToRad = S754_finite false 5030569068109113 (-58).
Proof. vm_compute. reflexivity. Qed.

Lemma radians_finite_lat lat : valid_latitude lat = true -> is_finite (radians lat) = true.
Proof.
  intros H. unfold radians.
  apply mul_finite_exp with (k1 := (-46)%Z) (k2 := (-58)%Z); [| |lia].
  - eapply range_exp with (b := 90); [reflexivity|exact H].
  - rewrite Prim2SF_degToRad. simpl. lia.
Qed.

Lemma radians_finite_lon lon : valid_longitude lon = true -> is_finite (radians lon) = true.
Proof.
  intros H. unfold radians.
  apply mul_finite_exp with (k1 := (-45)%Z) (k2 := (-58)%Z); [| |lia].
  - eapply range_exp with (b := 180); [reflexivity|exact H].
  - rewrite Prim2SF_degToRad. simpl. lia.
Qed.

Lemma mul_finite_le_1 x y :
  (abs x <=? 1) = true -> (abs y <=? 1) = true -> is_finite (x * y) = true.
Proof.
  intros Hx Hy.
  apply mul_finite_exp with (k1 := (-52)%Z) (k2 := (-52)%Z); [| |lia].
  - eapply abs_le_exp with (b := 1); [reflexivity|exact Hx].
  - eapply abs_le_exp with (b := 1); [reflexivity|exact Hy].
Qed.

Lemma abs_le_finite x b mb eb :
  Prim2SF b = S754_finite false mb eb -> (abs x <=? b) = true -> is_finite x = true.
Proof.
  intros Hb H. rewrite is_finite_spec.
  pose proof (abs_le_exp x b mb eb Hb H) as E. destruct (Prim2SF x); simpl in E; tauto.
Qed.

Lemma zero_plus_mul_zero z : is_finite z = true -> 0 + z * 0 = 0.
Proof.
  rewrite is_finite_spec. intros H. apply Prim2SF_inj.
  rewrite add_spec, mul_spec.
  change (Prim2SF 0) with (S754_zero false).
  destruct (Prim2SF z) as [s|s| |s m e]; try discriminate; destruct s; reflexivity.
Qed.

(** * The haversine distance *)

Lemma eqb_zero_spec x :
  (x =? 0) = match Prim2SF x with S754_zero _ => true | _ => false end.
Proof.
  rewrite FloatAxioms.eqb_spec. change (Prim2SF 0) with (S754_zero false).
  destruct (Prim2SF x) as [s|s| |s m e]; try reflexivity; destruct s; reflexivity.
Qed.

Lemma ltb_zero_spec x :
  (x <? 0) = match Prim2SF x with
             | S754_infinity true | S754_finite true _ _ => true
             | _ => false
             end.
Proof.
  rewrite ltb_spec. change (Prim2SF 0) with (S754_zero false).
  destruct (Prim2SF x) as [s|s| |s m e]; try reflexivity; destruct s; reflexivity.
Qed.

Lemma is_nan_opp x : is_nan (- x) = is_nan x.
Proof. rewrite !is_nan_spec, opp_spec. destruct (Prim2SF x); reflexivity. Qed.

Lemma is_infinity_opp x : is_infinity (- x) = is_infinity x.
Proof. rewrite !is_infinity_spec, opp_spec. destruct (Prim2SF x); reflexivity. Qed.

Lemma is_finite_opp x : is_finite (- x) = is_finite x.
Proof. unfold is_finite. rewrite is_nan_opp, is_infinity_opp. reflexivity. Qed.

Lemma abs_opp x : abs (- x) = abs x.
Proof.
  apply Prim2SF_inj. rewrite !abs_spec, opp_spec. destruct (Prim2SF x); reflexivity.
Qed.

Lemma math_1_odd f c x :
  f (- x) = - f x ->
  math_1 f c (- x) = (r <- math_1 f c x ;; Returns (- r)).
Proof.
  intros H. unfold math_1. rewrite H, !is_nan_opp, is_infinity_opp, is_finite_opp.
  destruct (is_nan (f x) && negb (is_nan x)); [reflexivity|].
  destruct (is_infinity (f x) && is_finite x); reflexivity.
Qed.

Lemma float_pow_2_opp M s : float_pow_2 M (- s) = float_pow_2 M s.
Proof.
  unfold float_pow_2.
  rewrite is_nan_opp, is_infinity_opp, abs_opp, !eqb_zero_spec, !ltb_zero_spec.
  rewrite is_nan_spec, is_infinity_spec.
  rewrite (opp_involutive s), opp_spec.
  assert (N : Prim2SF s = S754_nan -> - s = s).
  { intros E. apply Prim2SF_inj. rewrite opp_spec, E. reflexivity. }
  destruct (Prim2SF s) as [sg|sg| |sg m e]; simpl; try reflexivity.
  - rewrite N; reflexivity.
  - destruct sg; reflexivity.
Qed.

Lemma sq_sin_opp M h : sin_odd M -> sq_sin M (- h) = sq_sin M h.
Proof.
  intros H. unfold sq_sin, math_sin. rewrite math_1_odd by apply H.
  destruct (math_1 (c_sin M) false h); simpl; [apply float_pow_2_opp|reflexivity].
Qed.

Lemma sq_sin_half_sub M x y :
  sin_odd M -> sq_sin M ((y - x) / 2) = sq_sin M ((x - y) / 2).
Proof.
  intros H. destruct (sub_swap x y) as [E|[E1 E2]].
  - rewrite E, div_opp_l. apply sq_sin_opp, H.
  - rewrite E1, E2. reflexivity.
Qed.

Lemma math_1_raises f x e : math_1 f false x = Raises e -> e = ValueError.
Proof.
  unfold math_1.
  destruct (is_nan (f x) && negb (is_nan x)); [congruence|].
  destruct (is_infinity (f x) && is_finite x); congruence.
Qed.

Lemma math_cos_swap M (A : Type) u v (k : float -> float -> outcome A) :
  (c1 <- math_cos M u ;; c2 <- math_cos M v ;; k c1 c2)
  = (c2 <- math_cos M v ;; c1 <- math_cos M u ;; k c1 c2).
Proof.
  unfold math_cos.
  destruct (math_1 (c_cos M) false u) as [a|e] eqn:Eu,
           (math_1 (c_cos M) false v) as [b|e'] eqn:Ev; simpl; try reflexivity.
  apply math_1_raises in Eu, Ev. congruence.
Qed.

Lemma haversine_a_unfold M lat1 lon1 lat2 lon2 :
  haversine_a M lat1 lon1 lat2 lon2 =
  (p1 <- sq_sin M ((radians lat2 - radians lat1) / 2) ;;
   c1 <- math_cos M (radians lat1) ;;
   c2 <- math_cos M (radians lat2) ;;
   p2 <- sq_sin M ((radians lon2 - radians lon1) / 2) ;;
   Returns (p1 + c1 * c2 * p2)).
Proof.
  unfold haversine_a, sq_sin.
  destruct (math_sin M ((radians lat2 - radians lat1) / 2)); simpl; [|reflexivity].
  destruct (float_pow_2 M a); simpl; [|reflexivity].
  destruct (math_cos M (radians lat1)); simpl; [|reflexivity].
  destruct (math_cos M (radians lat2)); simpl; [|reflexivity].
  destruct (math_sin M ((radians lon2 - radians lon1) / 2)); reflexivity.
Qed.

Lemma haversine_a_sym M lat1 lon1 lat2 lon2 :
  sin_odd M ->
  haversine_a M lat1 lon1 lat2 lon2 = haversine_a M lat2 lon2 lat1 lon1.
Proof.
  intros H. rewrite !haversine_a_unfold.
  rewrite (sq_sin_half_sub M (radians lat1) (radians lat2) H).
  rewrite (sq_sin_half_sub M (radians lon1) (radians lon2) H).
  destruct (sq_sin M ((radians lat1 - radians lat2) / 2)) as [p1|e]; simpl; [|reflexivity].
  rewrite math_cos_swap.
  destruct (math_cos M (radians lat2)) as [c2|e]; simpl; [|reflexivity].
  destruct (math_cos M (radians lat1)) as [c1|e]; simpl; [|reflexivity].
  rewrite (mul_comm c1 c2). reflexivity.
Qed.

Lemma math_cos_bounded M x :
  cos_bounded M -> is_finite x = true -> math_cos M x = Returns (c_cos M x).
Proof.
  intros H Hx. unfold math_cos, math_1.
  assert (F : is_finite (c_cos M x) = true).
  { eapply abs_le_finite with (b := 1); [reflexivity|apply H, Hx]. }
  unfold is_finite in F. apply negb_true_iff, orb_false_iff in F. destruct F as [F1 F2].
  rewrite F1, F2. reflexivity.
Qed.

Lemma haversine_a_self M lat lon :
  sin_zero M -> cos_bounded M ->
  valid_latitude lat = true -> valid_longitude lon = true ->
  haversine_a M lat lon lat lon = Returns 0.
Proof.
  intros Hs Hc Hlat Hlon. unfold haversine_a.
  pose proof (radians_finite_lat lat Hlat) as Flat.
  rewrite (sub_diag (radians lat)) by exact Flat.
  rewrite (sub_diag (radians lon)) by (apply radians_finite_lon, Hlon).
  change (0 / 2) with 0.
  assert (S0 : math_sin M 0 = Returns 0).
  { unfold math_sin, math_1. rewrite Hs. reflexivity. }
  rewrite S0. cbn [bind].
  change (float_pow_2 M 0) with (@Returns float 0). cbn [bind].
  rewrite !math_cos_bounded by assumption. cbn [bind].
  rewrite zero_plus_mul_zero; [reflexivity|].
  apply mul_finite_le_1; apply Hc, Flat.
Qed.

(** * The order of the floats *)

Lemma bounded_exponent m e :
  bounded prec emax m e = true -> (-1074 <= e <= 971)%Z /\ (0 < Z.pos m < 2 ^ 53)%Z.
Proof.
  intros H. pose proof (bounded_mantissa m e H) as [Hm He].
  unfold bounded, canonical_mantissa, fexp, SpecFloat.emin, prec, emax in H.
  apply andb_true_iff in H. destruct H as [H1 H2]. apply Z.eqb_eq in H1. lia.
Qed.

Lemma SFkey_finite_pos m e :
  bounded prec emax m e = true ->
  (0 < (e + 1075) * 2 ^ 53 + Z.pos m < 2 ^ 64)%Z.
Proof.
  intros H. apply bounded_exponent in H. destruct H as [He Hm].
  change (2 ^ 64)%Z with (2048 * 2 ^ 53)%Z. nia.
Qed.

Lemma Pos_compare_cont_Eq m1 m2 : Pos.compare_cont Eq m1 m2 = (Z.pos m1 ?= Z.pos m2)%Z.
Proof. reflexivity. Qed.

Ltac solve_compare :=
  f_equal; symmetry;
  first [ apply Z.compare_eq_iff; lia
        | apply Z.compare_lt_iff; nia
        | apply Z.compare_gt_iff; nia ].

Lemma SFcompare_key X Y :
  valid_binary X = true -> valid_binary Y = true ->
  X <> S754_nan -> Y <> S754_nan ->
  SFcompare X Y = Some (SFkey X ?= SFkey Y)%Z.
Proof.
  intros VX VY NX NY.
  destruct X as [s|s| |s m e], Y as [s'|s'| |s' m' e']; try congruence;
    cbn [valid_binary] in VX, VY;
    try pose proof (SFkey_finite_pos m e VX);
    try pose proof (SFkey_finite_pos m' e' VY);
    cbn [SFcompare SFkey].
  - reflexivity.
  - destruct s'; reflexivity.
  - destruct s'; cbn [cond_Zopp]; solve_compare.
  - destruct s; reflexivity.
  - destruct s, s'; reflexivity.
  - destruct s, s'; cbn [cond_Zopp]; solve_compare.
  - destruct s; cbn [cond_Zopp]; solve_compare.
  - destruct s, s'; cbn [cond_Zopp]; solve_compare.
  - pose proof (bounded_exponent m e VX) as [He Hm].
    pose proof (bounded_exponent m' e' VY) as [He' Hm'].
    rewrite Pos_compare_cont_Eq.
    destruct s, s'; cbn [cond_Zopp]; try solve_compare;
      destruct (Z.compare_spec e e'); try solve_compare;
      subst e'; destruct (Z.compare_spec (Z.pos m) (Z.pos m')); cbn [CompOpp];
      solve_compare.
Qed.

Lemma is_nan_false_spec x : is_nan x = false -> Prim2SF x <> S754_nan.
Proof. rewrite is_nan_spec. destruct (Prim2SF x); congruence. Qed.

Lemma leb_key x y :
  is_nan x = false -> is_nan y = false -> (x <=? y) = (key x <=? key y)%Z.
Proof.
  intros Hx Hy. rewrite leb_spec. unfold SFleb, key.
  rewrite SFcompare_key by auto using Prim2SF_valid, is_nan_false_spec.
  unfold Z.leb. destruct (SFkey (Prim2SF x) ?= SFkey (Prim2SF y))%Z; reflexivity.
Qed.

Lemma ltb_key x y :
  is_nan x = false -> is_nan y = false -> (x <? y) = (key x <? key y)%Z.
Proof.
  intros Hx Hy. rewrite ltb_spec. unfold SFltb, key.
  rewrite SFcompare_key by auto using Prim2SF_valid, is_nan_false_spec.
  unfold Z.ltb. destruct (SFkey (Prim2SF x) ?= SFkey (Prim2SF y))%Z; reflexivity.
Qed.

Lemma eqb_key x y :
  is_nan x = false -> is_nan y = false -> (x =? y) = (key x =? key y)%Z.
Proof.
  intros Hx Hy. rewrite FloatAxioms.eqb_spec. unfold SFeqb, key.
  rewrite SFcompare_key by auto using Prim2SF_valid, is_nan_false_spec.
  rewrite Z.eqb_compare.
  destruct (SFkey (Prim2SF x) ?= SFkey (Prim2SF y))%Z; reflexivity.
Qed.

(** * The scaler on a constant column *)

Lemma is_finite_not_nan x : is_finite x = true -> is_nan x = false.
Proof.
  unfold is_finite. intros H. apply negb_true_iff, orb_false_iff in H. tauto.
Qed.

Lemma is_finite_not_inf x : is_finite x = true -> is_infinity x = false.
Proof.
  unfold is_finite. intros H. apply negb_true_iff, orb_false_iff in H. tauto.
Qed.

Lemma Pos_mul_2p52 m :
  (m * 4503599627370496)%positive
  = (m~0~0~0~0~0~0~0~0~0~0~0~0~0~0~0~0~0~0~0~0~0~0~0~0~0~0
      ~0~0~0~0~0~0~0~0~0~0~0~0~0~0~0~0~0~0~0~0~0~0~0~0~0~0)%positive.
Proof. rewrite Pos.mul_comm. reflexivity. Qed.

Lemma SFmul_one s m e :
  bounded prec emax m e = true ->
  SF64mul (S754_finite s m e) (S754_finite false 4503599627370496 (-52)) = S754_finite s m e.
Proof.
  intros B. unfold SF64mul, SFmul. rewrite xorb_false_r, Pos_mul_2p52.
  unfold binary_round_aux, shr_fexp.
  unfold bounded, canonical_mantissa in B. apply andb_true_iff in B. destruct B as [C Hle].
  apply Z.eqb_eq in C.
  assert (D : (Zdigits2 (Z.pos
      (m~0~0~0~0~0~0~0~0~0~0~0~0~0~0~0~0~0~0~0~0~0~0~0~0~0~0
        ~0~0~0~0~0~0~0~0~0~0~0~0~0~0~0~0~0~0~0~0~0~0~0~0~0~0)) + (e + -52)
      = Z.pos (digits2_pos m) + e)%Z).
  { cbn [Zdigits2 digits2_pos]. rewrite !Pos2Z.inj_succ. lia. }
  rewrite D, C.
  replace (e - (e + -52))%Z with 52%Z by lia.
  cbn [shr shr_record_of_loc].
  change (SpecFloat.iter_pos shr_1 52
     {| shr_m := Z.pos
      (m~0~0~0~0~0~0~0~0~0~0~0~0~0~0~0~0~0~0~0~0~0~0~0~0~0~0
        ~0~0~0~0~0~0~0~0~0~0~0~0~0~0~0~0~0~0~0~0~0~0~0~0~0~0);
        shr_r := false; shr_s := false |})
    with {| shr_m := Z.pos m; shr_r := false; shr_s := false |}.
  cbn [shr_m loc_of_shr_record round_nearest_even shr_record_of_loc Zdigits2].
  replace (e + -52 + 52)%Z with e by lia.
  rewrite C, Z.sub_diag. cbn [shr shr_m]. rewrite Hle. reflexivity.
Qed.

Lemma mul_one_r x : is_finite x = true -> x * 1 = x.
Proof.
  rewrite is_finite_spec. intros H. apply Prim2SF_inj. rewrite mul_spec.
  change (Prim2SF 1) with (S754_finite false 4503599627370496 (-52)).
  pose proof (Prim2SF_valid x) as V.
  destruct (Prim2SF x) as [s|s| |s m e]; try discriminate.
  - destruct s; reflexivity.
  - apply SFmul_one. exact V.
Qed.

Lemma fmin_key a b :
  is_finite a = true -> is_finite b = true ->
  is_finite (fmin a b) = true /\ key (fmin a b) = Z.min (key a) (key b).
Proof.
  intros Ha Hb. unfold fmin.
  rewrite (is_finite_not_nan b Hb), orb_false_r.
  rewrite leb_key by auto using is_finite_not_nan.
  destruct (Z.leb_spec (key a) (key b)); split; auto; lia.
Qed.

Lemma fmax_key a b :
  is_finite a = true -> is_finite b = true ->
  is_finite (fmax a b) = true /\ key (fmax a b) = Z.max (key a) (key b).
Proof.
  intros Ha Hb. unfold fmax.
  rewrite (is_finite_not_nan b Hb), orb_false_r.
  rewrite leb_key by auto using is_finite_not_nan.
  destruct (Z.leb_spec (key b) (key a)); split; auto; lia.
Qed.

Lemma fold_fmin_key l : forall x,
  is_finite x = true -> finite_column l ->
  is_finite (fold_left fmin l x) = true
  /\ (key (fold_left fmin l x) <= key x)%Z
  /\ Forall (fun y => (key (fold_left fmin l x) <= key y)%Z) l.
Proof.
  induction l as [|y l IH]; intros x Hx Hl; simpl.
  - repeat split; auto; lia.
  - inversion Hl as [|? ? Hy Hl']; subst.
    destruct (fmin_key x y Hx Hy) as [F K].
    destruct (IH (fmin x y) F Hl') as (F' & K' & A).
    repeat split; auto; [lia|]. constructor; [lia|exact A].
Qed.

Lemma fold_fmax_key l : forall x,
  is_finite x = true -> finite_column l ->
  is_finite (fold_left fmax l x) = true
  /\ (key x <= key (fold_left fmax l x))%Z
  /\ Forall (fun y => (key y <= key (fold_left fmax l x))%Z) l.
Proof.
  induction l as [|y l IH]; intros x Hx Hl; simpl.
  - repeat split; auto; lia.
  - inversion Hl as [|? ? Hy Hl']; subst.
    destruct (fmax_key x y Hx Hy) as [F K].
    destruct (IH (fmax x y) F Hl') as (F' & K' & A).
    repeat split; auto; [lia|]. constructor; [lia|exact A].
Qed.

Lemma nanmin_key col :
  col <> [] -> finite_column col ->
  is_finite (nanmin col) = true /\ Forall (fun y => (key (nanmin col) <= key y)%Z) col.
Proof.
  destruct col as [|x l]; [congruence|]. intros _ H. inversion H as [|? ? Hx Hl]; subst.
  destruct (fold_fmin_key l x Hx Hl) as (F & K & A). simpl. auto.
Qed.

Lemma nanmax_key col :
  col <> [] -> finite_column col ->
  is_finite (nanmax col) = true /\ Forall (fun y => (key y <= key (nanmax col))%Z) col.
Proof.
  destruct col as [|x l]; [congruence|]. intros _ H. inversion H as [|? ? Hx Hl]; subst.
  destruct (fold_fmax_key l x Hx Hl) as (F & K & A). simpl. auto.
Qed.

(** Finite floats with the same key are two zeros or the same float. *)
Lemma key_eq_cases a b :
  is_finite a = true -> is_finite b = true -> key a = key b ->
  (exists s s', Prim2SF a = S754_zero s /\ Prim2SF b = S754_zero s')
  \/ (exists s m e, Prim2SF a = S754_finite s m e /\ Prim2SF b = S754_finite s m e).
Proof.
  rewrite !is_finite_spec. unfold key. intros Ha Hb.
  pose proof (Prim2SF_valid a) as Va. pose proof (Prim2SF_valid b) as Vb.
  destruct (Prim2SF a) as [s|s| |s m e], (Prim2SF b) as [s'|s'| |s' m' e'];
    try discriminate; cbn [valid_binary] in Va, Vb;
    try pose proof (SFkey_finite_pos m e Va);
    try pose proof (SFkey_finite_pos m' e' Vb);
    cbn [SFkey]; intros K.
  - left. eauto.
  - destruct s'; cbn [cond_Zopp] in K; lia.
  - destruct s; cbn [cond_Zopp] in K; lia.
  - right. exists s, m, e. split; [reflexivity|].
    pose proof (bounded_exponent m e Va) as [He Hm].
    pose proof (bounded_exponent m' e' Vb) as [He' Hm'].
    assert (s = s') by (destruct s, s'; cbn [cond_Zopp] in K; try reflexivity; lia).
    subst s'.
    assert (Z.pos m = Z.pos m' /\ e = e') as [Em Ee]
      by (destruct s; cbn [cond_Zopp] in K; nia).
    inversion Em. subst. reflexivity.
Qed.

Lemma SFadd_cancel s m e :
  SF64add (S754_finite s m e) (S754_finite (negb s) m e) = S754_zero false.
Proof.
  unfold SF64add, SFadd.
  destruct s; cbn [cond_Zopp negb]; rewrite ?Z.add_opp_diag_r, ?Z.add_opp_diag_l; reflexivity.
Qed.

Lemma add_zero_sub_key x d :
  is_finite x = true -> is_finite d = true -> key x = key d ->
  x + (0 - d) = 0.
Proof.
  intros Hx Hd K. apply Prim2SF_inj. rewrite add_spec, sub_spec.
  change (Prim2SF 0) with (S754_zero false).
  destruct (key_eq_cases x d Hx Hd K) as [(s & s' & Ex & Ed)|(s & m & e & Ex & Ed)];
    rewrite Ex, Ed.
  - destruct s, s'; reflexivity.
  - cbn [SF64sub SFsub]. apply SFadd_cancel.
Qed.

Lemma sub_key_zero a b :
  is_finite a = true -> is_finite b = true -> key a = key b ->
  exists s, Prim2SF (a - b) = S754_zero s.
Proof.
  intros Ha Hb K. rewrite sub_spec.
  destruct (key_eq_cases a b Ha Hb K) as [(s & s' & Ea & Eb)|(s & m & e & Ea & Eb)];
    rewrite Ea, Eb.
  - destruct s, s'; eexists; reflexivity.
  - exists false. unfold SF64sub, SFsub. rewrite Z.sub_diag. reflexivity.
Qed.

Lemma handle_zeros_constant a b :
  is_finite a = true -> is_finite b = true -> key a = key b ->
  handle_zeros_in_scale (a - b) = 1.
Proof.
  intros Ha Hb K. unfold handle_zeros_in_scale.
  destruct (sub_key_zero a b Ha Hb K) as [s E].
  rewrite ltb_spec, E. reflexivity.
Qed.

Lemma validate_data_finite col :
  col <> [] -> finite_column col -> validate_data col = Returns col.
Proof.
  intros Hne H. unfold validate_data. destruct col as [|x l]; [congruence|].
  replace (existsb is_infinity (x :: l)) with false; [reflexivity|].
  symmetry. apply not_true_iff_false. intros E. apply existsb_exists in E.
  destruct E as (y & Hy & Iy). unfold finite_column in H. rewrite Forall_forall in H.
  rewrite (is_finite_not_inf y (H y Hy)) in Iy. discriminate.
Qed.

(** * The sample C library satisfies what is asked of one *)

Lemma leibniz_eqb_refl x : Leibniz.eqb x x = true.
Proof. apply Leibniz.eqb_spec. reflexivity. Qed.

Lemma leibniz_eqb_opp x c : Leibniz.eqb (- x) c = Leibniz.eqb x (- c).
Proof.
  destruct (Leibniz.eqb (- x) c) eqn:E1, (Leibniz.eqb x (- c)) eqn:E2; try reflexivity.
  - apply Leibniz.eqb_spec in E1. subst c.
    rewrite opp_involutive, leibniz_eqb_refl in E2. discriminate.
  - apply Leibniz.eqb_spec in E2. subst x.
    rewrite opp_involutive, leibniz_eqb_refl in E1. discriminate.
Qed.

Lemma sample_sin_odd : sin_odd libm_sample.
Proof.
  intros x. cbn [c_sin libm_sample]. unfold sample_sin.
  rewrite !leibniz_eqb_opp, is_infinity_opp.
  change (- - rad_12) with rad_12. change (- - half_pi) with half_pi.
  destruct (Leibniz.eqb x rad_12) eqn:E1.
  { apply Leibniz.eqb_spec in E1. subst x. reflexivity. }
  destruct (Leibniz.eqb x (- rad_12)) eqn:E2.
  { apply Leibniz.eqb_spec in E2. subst x. reflexivity. }
  destruct (Leibniz.eqb x half_pi) eqn:E3.
  { apply Leibniz.eqb_spec in E3. subst x. reflexivity. }
  destruct (Leibniz.eqb x (- half_pi)) eqn:E4.
  { apply Leibniz.eqb_spec in E4. subst x. reflexivity. }
  destruct (is_infinity x); reflexivity.
Qed.

Lemma sample_sin_zero : sin_zero libm_sample.
Proof. reflexivity. Qed.

Lemma sample_asin_zero : asin_zero libm_sample.
Proof. reflexivity. Qed.

Lemma sample_cos_bounded : cos_bounded libm_sample.
Proof.
  intros x Hx. cbn [c_cos libm_sample]. unfold sample_cos. rewrite Hx.
  destruct (Leibniz.eqb x rad_12); [reflexivity|].
  destruct (Leibniz.eqb x (- rad_12)); reflexivity.
Qed.

(** * Tables and the steps of the script *)

Lemma bind_Returns {A B : Type} (c : outcome A) (k : A -> outcome B) (r : B) :
  bind c k = Returns r -> exists a, c = Returns a /\ k a = Returns r.
Proof. destruct c as [a|e]; simpl; [eauto|discriminate]. Qed.

Ltac bind_inv H :=
  let a := fresh "v" in
  let Ha := fresh "Hv" in
  apply bind_Returns in H; destruct H as (a & Ha & H).

Lemma getitem_app_l df cols name :
  In name (names df) -> getitem (df ++ cols) name = getitem df name.
Proof.
  induction df as [|[k c] df IH]; simpl; [tauto|]. intros [E|H].
  - subst. rewrite String.eqb_refl. reflexivity.
  - destruct (String.eqb k name); auto.
Qed.

Lemma set_column_fresh df name c :
  ~ In name (names df) -> set_column df name c = df ++ [(name, c)].
Proof.
  induction df as [|[k c0] df IH]; simpl; [reflexivity|]. intros H.
  destruct (String.eqb_spec k name) as [E|E]; [tauto|].
  rewrite IH by tauto. reflexivity.
Qed.

Lemma setitem_fresh df name c df' :
  setitem df name c = Returns df' -> ~ In name (names df) -> df' = df ++ [(name, c)].
Proof.
  unfold setitem. destruct (Nat.eqb _ _); [|discriminate].
  intros H F. inversion H. apply set_column_fresh, F.
Qed.

Lemma names_app df cols : names (df ++ cols) = names df ++ names cols.
Proof. apply map_app. Qed.

Lemma select_names df cols out : select df cols = Returns out -> names out = cols.
Proof.
  revert out. induction cols as [|n cols IH]; simpl; intros out H.
  - inversion H. reflexivity.
  - bind_inv H. bind_inv H. inversion H. simpl. f_equal. apply IH. assumption.
Qed.

Lemma DataFrame_Returns data df : DataFrame data = Returns df -> df = data.
Proof. unfold DataFrame. destruct (forallb _ _); congruence. Qed.

(** A name is not among those of a table whose names are known. *)
Ltac fresh_name :=
  rewrite ?names_app; cbn [names map fst app];
  repeat match goal with H : names _ = _ |- _ => rewrite H end;
  cbn [app]; intros F; cbn [In] in F;
  repeat (destruct F as [F|F]; [discriminate F|]); exact F.

Lemma stage_haversine_extends E df df' :
  names df = input_columns ->
  stage_haversine E df = Returns df' ->
  exists c, df' = df ++ [("distance_km", c)].
Proof.
  intros N H. unfold stage_haversine in H. do 5 bind_inv H.
  eexists. eapply setitem_fresh; [exact H|]. fresh_name.
Qed.

Lemma stage_projection_extends E df df' :
  names df = input_columns ++ ["distance_km"] ->
  stage_projection E df = Returns df' ->
  exists cx cy, df' = df ++ [("pickup_x_meters", cx); ("pickup_y_meters", cy)].
Proof.
  intros N H. unfold stage_projection in H. do 3 bind_inv H.
  apply setitem_fresh in Hv1; [|fresh_name]. subst v1.
  apply setitem_fresh in H; [|fresh_name]. subst df'.
  do 2 eexists. rewrite <- app_assoc. reflexivity.
Qed.

Lemma stage_spherical_extends E df df' :
  names df = input_columns ++ ["distance_km"; "pickup_x_meters"; "pickup_y_meters"] ->
  stage_spherical E df = Returns df' ->
  exists cols, df' = df ++ cols /\ names cols = spherical_columns.
Proof.
  intros N H. unfold stage_spherical in H. do 11 bind_inv H.
  apply setitem_fresh in Hv0; [|fresh_name]. subst v0.
  apply setitem_fresh in Hv2; [|fresh_name]. subst v2.
  apply setitem_fresh in Hv4; [|fresh_name]. subst v4.
  apply setitem_fresh in Hv6; [|fresh_name]. subst v6.
  apply setitem_fresh in Hv8; [|fresh_name]. subst v8.
  apply setitem_fresh in H; [|fresh_name]. subst df'.
  eexists. rewrite <- !app_assoc. split; reflexivity.
Qed.

Lemma stage_scaling_extends df df' :
  names df = input_columns ++ ["distance_km"; "pickup_x_meters"; "pickup_y_meters"]
             ++ spherical_columns ->
  stage_scaling df = Returns df' ->
  exists cx cy, df' = df ++ [("pickup_x_scaled", cx); ("pickup_y_scaled", cy)].
Proof.
  intros N H. unfold stage_scaling in H. do 6 bind_inv H.
  apply setitem_fresh in Hv4; [|fresh_name]. subst v4.
  apply setitem_fresh in H; [|fresh_name]. subst df'.
  do 2 eexists. rewrite <- app_assoc. reflexivity.
Qed.


(** ** What a failing call can raise *)

Lemma float_pow_2_raises M s e :
  float_pow_2 M s = Raises e -> e = ValueError \/ e = OverflowError.
Proof.
  unfold float_pow_2.
  repeat match goal with
         | |- context [if ?b then _ else _] => destruct b
         | |- context [match ?x with ENone => _ | EDOM => _ | ERANGE => _ end] => destruct x
         end;
    intros H; inversion H; auto.
Qed.

Lemma sq_sin_raises M h e :
  sq_sin M h = Raises e -> e = ValueError \/ e = OverflowError.
Proof.
  unfold sq_sin, math_sin. destruct (math_1 (c_sin M) false h) as [s|e'] eqn:E; cbn [bind].
  - apply float_pow_2_raises.
  - intros H. inversion H; subst. left. eapply math_1_raises; eauto.
Qed.

Lemma haversine_a_raises M lat1 lon1 lat2 lon2 e :
  haversine_a M lat1 lon1 lat2 lon2 = Raises e -> e = ValueError \/ e = OverflowError.
Proof.
  rewrite haversine_a_unfold.
  destruct (sq_sin M ((radians lat2 - radians lat1) / 2)) as [p1|e1] eqn:E1; cbn [bind];
    [|intros H; inversion H; subst; eapply sq_sin_raises; eauto].
  unfold math_cos.
  destruct (math_1 (c_cos M) false (radians lat1)) as [c1|e2] eqn:E2; cbn [bind];
    [|intros H; inversion H; subst; left; eapply math_1_raises; eauto].
  destruct (math_1 (c_cos M) false (radians lat2)) as [c2|e3] eqn:E3; cbn [bind];
    [|intros H; inversion H; subst; left; eapply math_1_raises; eauto].
  destruct (sq_sin M ((radians lon2 - radians lon1) / 2)) as [p2|e4] eqn:E4; cbn [bind];
    [discriminate|intros H; inversion H; subst; eapply sq_sin_raises; eauto].
Qed.

Lemma haversine_distance_raises M lat1 lon1 lat2 lon2 e :
  calculate_haversine_distance M lat1 lon1 lat2 lon2 = Raises e ->
  e = ValueError \/ e = OverflowError.
Proof.
  unfold calculate_haversine_distance.
  destruct (haversine_a M lat1 lon1 lat2 lon2) as [a|e1] eqn:E1; cbn [bind];
    [|intros H; inversion H; subst; eapply haversine_a_raises; eauto].
  unfold math_sqrt, math_asin.
  destruct (math_1 PrimFloat.sqrt false a) as [r|e2] eqn:E2; cbn [bind];
    [|intros H; inversion H; subst; left; eapply math_1_raises; eauto].
  destruct (math_1 (c_asin M) false r) as [h|e3] eqn:E3; cbn [bind];
    [discriminate|intros H; inversion H; subst; left; eapply math_1_raises; eauto].
Qed.


Lemma validate_data_Returns col X : validate_data col = Returns X -> X = col.
Proof.
  unfold validate_data. destruct col as [|x l]; [discriminate|].
  destruct (existsb is_infinity (x :: l)); congruence.
Qed.

(** * The claims *)

(** C1 (as amended): [calculate_haversine_distance] checks no range.  Whatever
    the four floats are (out of range, NaN or infinite), the call never fails
    with [InvalidCoordinate]: it returns a float, or fails with the
    [ValueError] or [OverflowError] of a math function. *)
Theorem haversine_never_invalid_coordinate M lat1 lon1 lat2 lon2 :
  calculate_haversine_distance M lat1 lon1 lat2 lon2 <> Raises InvalidCoordinate
  /\ (forall e, calculate_haversine_distance M lat1 lon1 lat2 lon2 = Raises e ->
                e = ValueError \/ e = OverflowError).
Proof.
  split.
  - intros H. apply haversine_distance_raises in H. destruct H; discriminate.
  - intros e. apply haversine_distance_raises.
Qed.

(** C1, counterexample: a longitude of 200 degrees is outside [-180, 180],
    and the call returns 0.0; a NaN latitude gives NaN, returned as a number;
    an infinite latitude fails, with [ValueError]. *)
Lemma haversine_accepts_invalid_coordinates :
  valid_longitude 200 = false
  /\ calculate_haversine_distance libm_sample 0 200 0 200 = Returns 0
  /\ valid_latitude nan = false
  /\ calculate_haversine_distance libm_sample nan 0 0 0 = Returns nan
  /\ valid_latitude infinity = false
  /\ calculate_haversine_distance libm_sample infinity 0 0 0 = Raises ValueError.
Proof. repeat split; vm_compute; reflexivity. Qed.




(** C3: the haversine distance is symmetric.  With an odd sine, the call on
    (lat1, lon1), (lat2, lon2) and the call on (lat2, lon2), (lat1, lon1) have
    the same outcome: the same float, or the same exception. *)
Theorem haversine_symmetric M lat1 lon1 lat2 lon2 :
  sin_odd M ->
  calculate_haversine_distance M lat1 lon1 lat2 lon2
  = calculate_haversine_distance M lat2 lon2 lat1 lon1.
Proof.
  intros H. unfold calculate_haversine_distance.
  rewrite (haversine_a_sym M lat1 lon1 lat2 lon2 H). reflexivity.
Qed.

Lemma haversine_symmetric_witness :
  sin_odd libm_sample
  /\ calculate_haversine_distance libm_sample 12 0 (-12) 180
     = calculate_haversine_distance libm_sample (-12) 180 12 0.
Proof.
  split; [exact sample_sin_odd|].
  exact (haversine_symmetric libm_sample 12 0 (-12) 180 sample_sin_odd).
Defined.

(** C4: the haversine distance from a point within the WGS84 ranges to itself
    is exactly 0.0 (with sin 0 = 0, asin 0 = 0 and a cosine within [-1, 1]). *)
Theorem haversine_self_zero M lat lon :
  sin_zero M -> asin_zero M -> cos_bounded M ->
  valid_latitude lat = true -> valid_longitude lon = true ->
  calculate_haversine_distance M lat lon lat lon = Returns 0.
Proof.
  intros Hs Ha Hc Hlat Hlon. unfold calculate_haversine_distance.
  rewrite haversine_a_self by assumption. cbn [bind].
  change (math_sqrt 0) with (@Returns float 0). cbn [bind].
  unfold math_asin, math_1. rewrite Ha. reflexivity.
Qed.

Lemma haversine_self_zero_witness :
  valid_latitude 12 = true /\ valid_longitude 0 = true
  /\ calculate_haversine_distance libm_sample 12 0 12 0 = Returns 0.
Proof.
  split; [reflexivity|split; [reflexivity|]].
  exact (haversine_self_zero libm_sample 12 0
           sample_sin_zero sample_asin_zero sample_cos_bounded eq_refl eq_refl).
Defined.




(** C8: on a column of finite values whose maximum equals its minimum, the
    scaler divides by 1, not by 0, and returns 0.0 for every entry. *)
Theorem fit_transform_zero_variance col :
  col <> [] -> finite_column col -> (nanmax col =? nanmin col) = true ->
  fit_transform col = Returns (map (fun _ => 0) col).
Proof.
  intros Hne Hfin Heq.
  destruct (nanmin_key col Hne Hfin) as [Fmin Amin].
  destruct (nanmax_key col Hne Hfin) as [Fmax Amax].
  rewrite eqb_key in Heq by auto using is_finite_not_nan. apply Z.eqb_eq in Heq.
  unfold fit_transform, fit, transform.
  rewrite validate_data_finite by assumption. cbn [bind scale_ min_].
  rewrite (handle_zeros_constant _ _ Fmax Fmin Heq).
  change ((1 - 0) / 1) with 1.
  f_equal. apply map_ext_in. intros x Hx.
  unfold finite_column in Hfin. rewrite Forall_forall in Hfin, Amin, Amax.
  rewrite (mul_one_r x) by auto. rewrite (mul_one_r (nanmin col)) by auto.
  apply add_zero_sub_key; auto.
  specialize (Amin x Hx). specialize (Amax x Hx). lia.
Qed.

Lemma fit_transform_zero_variance_witness :
  (nanmax [585000; 585000; 585000] =? nanmin [585000; 585000; 585000]) = true
  /\ fit_transform [585000; 585000; 585000] = Returns [0; 0; 0].
Proof.
  split; [reflexivity|].
  apply (fit_transform_zero_variance [585000; 585000; 585000]);
    [discriminate|repeat constructor|reflexivity].
Defined.

(** C9 (as amended): the table the script prints has exactly the columns
    trip_id, pickup_lat, pickup_lon, distance_km, pickup_x_meters,
    pickup_y_meters, pickup_lon_sin, pickup_lon_cos, pickup_x_scaled and
    pickup_y_scaled, in this order. *)
Theorem final_output_columns E data my_data_table out :
  run_script E data = Returns (my_data_table, out) ->
  names out = final_columns.
Proof.
  intros H. unfold run_script in H. do 6 bind_inv H.
  inversion H; subst. eapply select_names. exact Hv4.
Qed.

Lemma final_output_columns_witness :
  exists my_data_table out,
    run_script sample_externals trip_data = Returns (my_data_table, out)
    /\ names out = final_columns.
Proof.
  do 2 eexists. split.
  - vm_compute. reflexivity.
  - eapply (final_output_columns sample_externals trip_data). vm_compute. reflexivity.
Defined.

(** C9, counterexample: on the script's own data, pickup_lat_sin and
    pickup_lat_cos are columns of the working table and not of the table
    printed at the end. *)
Lemma final_output_lacks_latitude_encoding :
  exists my_data_table out,
    run_script sample_externals trip_data = Returns (my_data_table, out)
    /\ In "pickup_lat_sin" (names my_data_table)
    /\ In "pickup_lat_cos" (names my_data_table)
    /\ ~ In "pickup_lat_sin" (names out)
    /\ ~ In "pickup_lat_cos" (names out).
Proof.
  do 2 eexists. split; [vm_compute; reflexivity|].
  cbn [names map fst In].
  repeat split; try tauto;
    intros F; repeat (destruct F as [F|F]; [discriminate F|]); exact F.
Qed.

(** C10: every step appends new columns to the table it receives and changes
    no column that is already there; at the end the five input columns hold
    their input values. *)
Theorem stages_only_add_columns E data my_data_table out :
  names data = input_columns ->
  run_script E data = Returns (my_data_table, out) ->
  exists c3 c4 c5 c6,
    stage_haversine E data = Returns (data ++ c3)
    /\ stage_projection E (data ++ c3) = Returns (data ++ c3 ++ c4)
    /\ stage_spherical E (data ++ c3 ++ c4) = Returns (data ++ c3 ++ c4 ++ c5)
    /\ stage_scaling (data ++ c3 ++ c4 ++ c5) = Returns (data ++ c3 ++ c4 ++ c5 ++ c6)
    /\ my_data_table = data ++ c3 ++ c4 ++ c5 ++ c6
    /\ names (c3 ++ c4 ++ c5 ++ c6) = derived_columns
    /\ forall name, In name input_columns -> getitem my_data_table name = getitem data name.
Proof.
  intros N H. unfold run_script in H. do 6 bind_inv H.
  apply DataFrame_Returns in Hv. subst v.
  inversion H; subst v3 out; clear H.
  destruct (stage_haversine_extends _ _ _ N Hv0) as (c & E3). subst v0.
  assert (N1 : names (data ++ [("distance_km", c)]) = input_columns ++ ["distance_km"])
    by (rewrite names_app, N; reflexivity).
  destruct (stage_projection_extends _ _ _ N1 Hv1) as (cx & cy & E4). subst v1.
  rewrite <- app_assoc in Hv1, Hv2.
  assert (N2 : names (data ++ [("distance_km", c)] ++ [("pickup_x_meters", cx); ("pickup_y_meters", cy)])
               = input_columns ++ ["distance_km"; "pickup_x_meters"; "pickup_y_meters"])
    by (rewrite names_app, N; reflexivity).
  destruct (stage_spherical_extends _ _ _ N2 Hv2) as (c5 & E5 & N5). subst v2.
  rewrite <- !app_assoc in Hv2, Hv3.
  assert (N3 : names (data ++ [("distance_km", c)] ++ [("pickup_x_meters", cx); ("pickup_y_meters", cy)] ++ c5)
               = input_columns ++ ["distance_km"; "pickup_x_meters"; "pickup_y_meters"]
                 ++ spherical_columns).
  { rewrite !names_app, N, N5. reflexivity. }
  destruct (stage_scaling_extends _ _ N3 Hv3) as (sx & sy & E6). subst my_data_table.
  rewrite <- !app_assoc in Hv3. rewrite <- !app_assoc.
  exists [("distance_km", c)], [("pickup_x_meters", cx); ("pickup_y_meters", cy)], c5,
    [("pickup_x_scaled", sx); ("pickup_y_scaled", sy)].
  repeat split; try assumption.
  - rewrite !names_app, N5. reflexivity.
  - intros name Hin. apply getitem_app_l. rewrite N. exact Hin.
Qed.

Lemma stages_only_add_columns_witness :
  exists my_data_table out,
    run_script sample_externals trip_data = Returns (my_data_table, out)
    /\ names my_data_table = input_columns ++ derived_columns
    /\ forall name, In name input_columns ->
         getitem my_data_table name = getitem trip_data name.
Proof.
  do 2 eexists. split; [vm_compute; reflexivity|].
  match goal with
  | |- names ?t = _ /\ _ =>
      destruct (stages_only_add_columns sample_externals trip_data t _ eq_refl
                  ltac:(vm_compute; reflexivity))
        as (c3 & c4 & c5 & c6 & _ & _ & _ & _ & _ & _ & H)
  end.
  split; [reflexivity|exact H].
Defined.

(** * Further properties *)

(** ** More facts on floats and on the haversine distance *)

Lemma mul_opp_l x y : (- x) * y = - (x * y).
Proof.
  apply Prim2SF_inj. rewrite opp_spec, !mul_spec, opp_spec. unfold SF64mul.
  destruct (Prim2SF x) as [s|s| |s m e], (Prim2SF y) as [s'|s'| |s' m' e'];
    simpl; try reflexivity; try (destruct s, s'; reflexivity).
  rewrite binary_round_aux_opp. destruct s, s'; reflexivity.
Qed.

Lemma sub_opp_opp x y : (- y) - (- x) = x - y.
Proof.
  apply Prim2SF_inj. rewrite !sub_spec, !opp_spec. unfold SF64sub.
  destruct (Prim2SF x) as [s|s| |s m e], (Prim2SF y) as [s'|s'| |s' m' e'];
    try reflexivity; try (destruct s, s'; reflexivity).
  cbn [SFopp SFsub]. rewrite (Z.min_comm e' e). f_equal.
  destruct s, s'; cbn [cond_Zopp negb]; lia.
Qed.

Lemma radians_opp x : radians (- x) = - radians x.
Proof. apply mul_opp_l. Qed.

Lemma math_1_even f c x : f (- x) = f x -> math_1 f c (- x) = math_1 f c x.
Proof.
  intros H. unfold math_1. rewrite H, is_nan_opp, is_finite_opp. reflexivity.
Qed.

Lemma is_infinity_radians x : is_infinity x = true -> is_infinity (radians x) = true.
Proof.
  unfold radians. rewrite !is_infinity_spec, mul_spec, Prim2SF_degToRad.
  destruct (Prim2SF x); try discriminate. reflexivity.
Qed.

Lemma half_diff_infinite a b :
  (is_infinity a = true /\ is_finite b = true) \/ (is_finite a = true /\ is_infinity b = true) ->
  is_infinity ((b - a) / 2) = true.
Proof.
  rewrite !is_infinity_spec, !is_finite_spec, div_spec, sub_spec.
  change (Prim2SF 2) with (S754_finite false 4503599627370496 (-51)).
  intros [[Ha Hb]|[Ha Hb]];
    destruct (Prim2SF a) as [s|s| |s m e], (Prim2SF b) as [s'|s'| |s' m' e'];
    try discriminate; reflexivity.
Qed.

Lemma math_sin_infinite M x :
  sin_inf_nan M -> is_infinity x = true -> math_sin M x = Raises ValueError.
Proof.
  intros H Hx. unfold math_sin, math_1. rewrite (H x Hx).
  replace (is_nan x) with false; [reflexivity|].
  rewrite is_nan_spec. rewrite is_infinity_spec in Hx. destruct (Prim2SF x); try discriminate; reflexivity.
Qed.

Lemma haversine_mirror_latitude M lat1 lon1 lat2 lon2 :
  sin_odd M -> cos_even M ->
  haversine_a M (- lat1) lon1 (- lat2) lon2 = haversine_a M lat1 lon1 lat2 lon2.
Proof.
  intros Ho He. rewrite !haversine_a_unfold, !radians_opp, sub_opp_opp.
  rewrite (sq_sin_half_sub M (radians lat2) (radians lat1) Ho).
  unfold math_cos. rewrite !math_1_even by apply He. reflexivity.
Qed.

Lemma haversine_mirror_longitude M lat1 lon1 lat2 lon2 :
  sin_odd M ->
  haversine_a M lat1 (- lon1) lat2 (- lon2) = haversine_a M lat1 lon1 lat2 lon2.
Proof.
  intros Ho. rewrite !haversine_a_unfold, !radians_opp, sub_opp_opp.
  rewrite (sq_sin_half_sub M (radians lon2) (radians lon1) Ho). reflexivity.
Qed.

Lemma sample_sin_inf_nan : sin_inf_nan libm_sample.
Proof.
  intros x Hx. cbn [c_sin libm_sample]. unfold sample_sin. rewrite Hx.
  destruct (Leibniz.eqb x rad_12) eqn:E1.
  { apply Leibniz.eqb_spec in E1. subst x. discriminate Hx. }
  destruct (Leibniz.eqb x (- rad_12)) eqn:E2.
  { apply Leibniz.eqb_spec in E2. subst x. discriminate Hx. }
  destruct (Leibniz.eqb x half_pi) eqn:E3.
  { apply Leibniz.eqb_spec in E3. subst x. discriminate Hx. }
  destruct (Leibniz.eqb x (- half_pi)) eqn:E4.
  { apply Leibniz.eqb_spec in E4. subst x. discriminate Hx. }
  reflexivity.
Qed.

Lemma sample_cos_even : cos_even libm_sample.
Proof.
  intros x. cbn [c_cos libm_sample]. unfold sample_cos.
  rewrite !leibniz_eqb_opp, is_finite_opp. change (- - rad_12) with rad_12.
  destruct (Leibniz.eqb x rad_12), (Leibniz.eqb x (- rad_12)); reflexivity.
Qed.

(** ** More facts on tables *)



Lemma getitem_In df name c : getitem df name = Returns c -> In name (names df).
Proof.
  induction df as [|[k c0] df IH]; simpl; [discriminate|].
  destruct (String.eqb_spec k name); [left; assumption|right; auto].
Qed.

Lemma getitem_app_r df cols name :
  ~ In name (names df) -> getitem (df ++ cols) name = getitem cols name.
Proof.
  induction df as [|[k c] df IH]; simpl; [reflexivity|]. intros H.
  destruct (String.eqb_spec k name); [tauto|]. apply IH. tauto.
Qed.

Lemma setitem_Returns df name c df' :
  setitem df name c = Returns df' ->
  df' = set_column df name c /\ column_length c = nrows df.
Proof.
  unfold setitem. destruct (Nat.eqb_spec (column_length c) (nrows df)); [|discriminate].
  intros H. inversion H. auto.
Qed.

Lemma setitem_append df name c df' :
  setitem df name c = Returns df' -> ~ In name (names df) ->
  df' = df ++ [(name, c)] /\ column_length c = nrows df.
Proof.
  intros H F. apply setitem_Returns in H. destruct H as [H L]. subst df'.
  rewrite set_column_fresh by exact F. auto.
Qed.

Lemma nrows_app df cols : df <> [] -> nrows (df ++ cols) = nrows df.
Proof. destruct df as [|[k c] df]; [congruence|reflexivity]. Qed.

Lemma apply_rows_length f a b c d r :
  apply_rows f a b c d = Returns r ->
  List.length a = List.length b -> List.length b = List.length c ->
  List.length c = List.length d ->
  List.length r = List.length a.
Proof.
  revert b c d r. induction a as [|x a IH]; intros [|y b] [|z c] [|w d] r H; simpl in *;
    try discriminate; try (inversion H; reflexivity).
  intros L1 L2 L3. bind_inv H. bind_inv H. inversion H; subst. simpl. f_equal.
  eapply IH; eauto.
Qed.

Lemma apply_rows_nth f a b c d r :
  apply_rows f a b c d = Returns r ->
  forall i, (i < List.length r)%nat ->
    f (nth i a 0) (nth i b 0) (nth i c 0) (nth i d 0) = Returns (nth i r 0).
Proof.
  revert b c d r. induction a as [|x a IH]; intros [|y b] [|z c] [|w d] r H i Hi;
    simpl in H; try (inversion H; subst; simpl in Hi; lia).
  bind_inv H. bind_inv H. inversion H; subst. destruct i as [|i]; simpl.
  - assumption.
  - eapply IH; eauto. simpl in Hi. lia.
Qed.

Lemma apply_rows_Raises f e : forall a b c d i,
  (i < List.length a)%nat -> (i < List.length b)%nat ->
  (i < List.length c)%nat -> (i < List.length d)%nat ->
  (forall j, (j < i)%nat ->
     exists v, f (nth j a 0) (nth j b 0) (nth j c 0) (nth j d 0) = Returns v) ->
  f (nth i a 0) (nth i b 0) (nth i c 0) (nth i d 0) = Raises e ->
  apply_rows f a b c d = Raises e.
Proof.
  intros a b c d i. revert a b c d.
  induction i as [|i IH]; intros [|x a] [|y b] [|z c] [|w d] La Lb Lc Ld Hj Hi;
    simpl in La, Lb, Lc, Ld; try lia; simpl.
  - simpl in Hi. rewrite Hi. reflexivity.
  - destruct (Hj 0%nat ltac:(lia)) as [v Hv]. simpl in Hv. rewrite Hv. cbn [bind].
    rewrite (IH a b c d); try lia; try reflexivity.
    + intros j Hlt. apply (Hj (S j)). lia.
    + exact Hi.
Qed.

Lemma select_getitem df : forall cols out,
  select df cols = Returns out -> NoDup cols ->
  forall name, In name cols -> getitem out name = getitem df name.
Proof.
  induction cols as [|n cols IH]; intros out H ND name Hin; [contradiction|].
  simpl in H. bind_inv H. bind_inv H. inversion H; subst out; clear H.
  inversion ND as [|? ? Hn ND']; subst. simpl.
  destruct (String.eqb_spec n name) as [E|E].
  - subst. symmetry. assumption.
  - destruct Hin as [Hin|Hin]; [contradiction|]. eapply IH; eauto.
Qed.

Lemma fit_transform_length col out :
  fit_transform col = Returns out -> List.length out = List.length col.
Proof.
  unfold fit_transform, fit, transform. intros H.
  destruct (validate_data col) as [X|e] eqn:V; cbn [bind] in H; [|discriminate].
  apply validate_data_Returns in V. subst X. inversion H. apply length_map.
Qed.

Lemma names_input_columns data :
  names data = input_columns ->
  exists c0 c1 c2 c3 c4,
    data = [("trip_id", c0); ("pickup_lat", c1); ("pickup_lon", c2);
            ("dropoff_lat", c3); ("dropoff_lon", c4)].
Proof.
  unfold names, input_columns. intros H.
  destruct data as [|[n0 c0] [|[n1 c1] [|[n2 c2] [|[n3 c3] [|[n4 c4] [|]]]]]];
    try discriminate.
  simpl in H. inversion H; subst. do 5 eexists. reflexivity.
Qed.

(** ** The script, step by step *)

Ltac script_step :=
  match goal with
  | H : bind (Returns _) _ = Returns _ |- _ => cbn [bind] in H
  | H : context [select (_ :: _) (_ :: _)] |- _ =>
      progress cbn [getitem String.eqb Ascii.eqb Bool.eqb app select bind] in H
  | H : context [getitem (_ :: _) _] |- _ =>
      progress cbn [getitem String.eqb Ascii.eqb Bool.eqb app select bind] in H
  | H : context [(_ :: _) ++ _] |- _ => progress cbn [app] in H
  | H : bind (apply_rows _ _ _ _ _) _ = Returns _ |- _ => bind_inv H
  | H : bind (fit_transform _) _ = Returns _ |- _ => bind_inv H
  | H : bind (setitem _ _ _) _ = Returns _ |- _ => bind_inv H
  end.

Ltac append_step :=
  match goal with
  | H : setitem _ _ _ = Returns ?r |- _ =>
      is_var r; apply setitem_append in H; [destruct H as [-> _]|fresh_name]
  end.

Lemma run_script_inversion E data my_data_table out :
  names data = input_columns ->
  run_script E data = Returns (my_data_table, out) ->
  exists pickup_lat pickup_lon dropoff_lat dropoff_lon distance_km x_scaled y_scaled,
    DataFrame data = Returns data
    /\ getitem data "pickup_lat" = Returns pickup_lat
    /\ getitem data "pickup_lon" = Returns pickup_lon
    /\ getitem data "dropoff_lat" = Returns dropoff_lat
    /\ getitem data "dropoff_lon" = Returns dropoff_lon
    /\ apply_rows (calculate_haversine_distance (libm E))
         (to_floats pickup_lat) (to_floats pickup_lon)
         (to_floats dropoff_lat) (to_floats dropoff_lon) = Returns distance_km
    /\ fit_transform (map fst (projected E pickup_lon pickup_lat)) = Returns x_scaled
    /\ fit_transform (map snd (projected E pickup_lon pickup_lat)) = Returns y_scaled
    /\ my_data_table
       = data ++ derived_table E pickup_lat pickup_lon distance_km x_scaled y_scaled
    /\ select my_data_table final_columns = Returns out.
Proof.
  intros N H.
  destruct (names_input_columns data N) as (c0 & c1 & c2 & c3 & c4 & D). subst data.
  unfold run_script in H. do 6 bind_inv H. inversion H; subst; clear H.
  pose proof (DataFrame_Returns _ _ Hv) as Ev. subst v.
  unfold stage_haversine, stage_projection, stage_spherical, stage_scaling, final_output in *.
  repeat (script_step || append_step).
  do 7 eexists. cbn [getitem String.eqb Ascii.eqb Bool.eqb].
  repeat split; try eassumption; reflexivity.
Qed.

Lemma getitem_In_pair df name c : getitem df name = Returns c -> In (name, c) df.
Proof.
  induction df as [|[k c0] df IH]; simpl; [discriminate|].
  destruct (String.eqb_spec k name) as [E|E].
  - intros H. inversion H; subst. left. reflexivity.
  - intros H. right. auto.
Qed.

Lemma DataFrame_column_length data df name c :
  DataFrame data = Returns df -> getitem data name = Returns c ->
  column_length c = nrows data.
Proof.
  unfold DataFrame. destruct (forallb _ data) eqn:F; [|discriminate]. intros _ G.
  rewrite forallb_forall in F. apply getitem_In_pair in G.
  specialize (F _ G). apply Nat.eqb_eq in F. exact F.
Qed.

Lemma to_floats_length c : List.length (to_floats c) = column_length c.
Proof. destruct c; simpl; [apply length_map|reflexivity]. Qed.

Lemma projected_length E lon lat n :
  column_length lon = n -> column_length lat = n ->
  List.length (projected E lon lat) = n.
Proof.
  intros H1 H2. unfold projected.
  rewrite length_map, length_combine, !to_floats_length. lia.
Qed.

Lemma NoDup_final_columns : NoDup final_columns.
Proof.
  unfold final_columns.
  repeat (constructor;
          [cbn [In]; intros F; repeat (destruct F as [F|F]; [discriminate F|]); exact F|]).
  constructor.
Qed.

Lemma run_script_row_count E data my_data_table out :
  names data = input_columns ->
  run_script E data = Returns (my_data_table, out) ->
  forall name c, In (name, c) my_data_table -> column_length c = nrows data.
Proof.
  intros N H.
  destruct (run_script_inversion E data my_data_table out N H)
    as (c1 & c2 & c3 & c4 & d & xs & ys & D & G1 & G2 & G3 & G4 & A & FX & FY & T & _).
  pose proof (DataFrame_column_length _ _ _ _ D G1) as L1.
  pose proof (DataFrame_column_length _ _ _ _ D G2) as L2.
  pose proof (DataFrame_column_length _ _ _ _ D G3) as L3.
  pose proof (DataFrame_column_length _ _ _ _ D G4) as L4.
  assert (Ld : List.length d = nrows data).
  { rewrite (apply_rows_length _ _ _ _ _ _ A); rewrite ?to_floats_length; congruence. }
  pose proof (projected_length E c2 c1 (nrows data) L2 L1) as LP.
  apply fit_transform_length in FX, FY. rewrite length_map in FX, FY.
  intros name c Hin. subst my_data_table. apply in_app_or in Hin. destruct Hin as [Hin|Hin].
  - unfold DataFrame in D. destruct (forallb _ data) eqn:F; [|discriminate].
    rewrite forallb_forall in F. specialize (F _ Hin). apply Nat.eqb_eq in F. exact F.
  - unfold derived_table in Hin. cbn [In] in Hin.
    repeat (destruct Hin as [Hin|Hin];
            [inversion Hin; subst; cbn [column_length];
             rewrite ?length_map, ?to_floats_length; congruence|]).
    contradiction.
Qed.

Lemma getitem_present df name : In name (names df) -> exists c, getitem df name = Returns c.
Proof.
  induction df as [|[k c] df IH]; simpl; [contradiction|]. intros H.
  destruct (String.eqb_spec k name); [eauto|]. apply IH. tauto.
Qed.

Lemma select_present df : forall cols,
  (forall n, In n cols -> In n (names df)) -> exists r, select df cols = Returns r.
Proof.
  induction cols as [|n cols IH]; intros H; simpl; [eauto|].
  destruct (getitem_present df n) as [c G]; [apply H; left; reflexivity|].
  destruct IH as [r Hr]; [intros; apply H; right; assumption|].
  rewrite G, Hr. cbn [bind]. eauto.
Qed.

Lemma display_present df cols :
  (forall n, In n cols -> In n (names df)) -> exists r, display df cols = Returns r.
Proof.
  intros H. unfold display. destruct (select_present df cols H) as [r Hr].
  rewrite Hr. cbn [bind]. eauto.
Qed.

(** Every listed name is among the names of a table whose names are known. *)
Ltac present_names :=
  rewrite ?names_app; cbn [names map fst app];
  repeat match goal with H : names _ = _ |- _ => rewrite H end;
  unfold input_columns;
  cbn [app In]; intros n F;
  repeat (destruct F as [F|F]; [subst n; cbn [In]; tauto|]); contradiction.

(** * Further theorems *)

(** X1: an infinite latitude, the other latitude being within range, makes
    the call fail with [ValueError] (the sine of an infinity is NaN, which
    [math.sin] reports as a domain error). *)
Theorem haversine_infinite_latitude M lat1 lon1 lat2 lon2 :
  sin_inf_nan M ->
  (is_infinity lat1 = true /\ valid_latitude lat2 = true)
  \/ (valid_latitude lat1 = true /\ is_infinity lat2 = true) ->
  calculate_haversine_distance M lat1 lon1 lat2 lon2 = Raises ValueError.
Proof.
  intros H C. unfold calculate_haversine_distance, haversine_a.
  rewrite math_sin_infinite; [reflexivity|exact H|].
  apply half_diff_infinite.
  destruct C as [[I V]|[V I]]; [left|right]; split;
    auto using is_infinity_radians, radians_finite_lat.
Qed.

Lemma haversine_infinite_latitude_witness :
  is_infinity infinity = true /\ valid_latitude 0 = true
  /\ calculate_haversine_distance libm_sample infinity 0 0 0 = Raises ValueError.
Proof.
  split; [reflexivity|split; [reflexivity|]].
  apply (haversine_infinite_latitude libm_sample infinity 0 0 0 sample_sin_inf_nan).
  left. split; reflexivity.
Defined.

(** X2: the distance is unchanged when both latitudes are negated (with an
    odd sine and an even cosine), and when both longitudes are negated. *)
Theorem haversine_mirror M lat1 lon1 lat2 lon2 :
  sin_odd M -> cos_even M ->
  calculate_haversine_distance M (- lat1) lon1 (- lat2) lon2
  = calculate_haversine_distance M lat1 lon1 lat2 lon2
  /\ calculate_haversine_distance M lat1 (- lon1) lat2 (- lon2)
     = calculate_haversine_distance M lat1 lon1 lat2 lon2.
Proof.
  intros Ho He. unfold calculate_haversine_distance.
  rewrite haversine_mirror_latitude, haversine_mirror_longitude by assumption.
  split; reflexivity.
Qed.

Lemma haversine_mirror_witness :
  calculate_haversine_distance libm_sample (- 12) 0 (- -12) 180
  = calculate_haversine_distance libm_sample 12 0 (-12) 180
  /\ calculate_haversine_distance libm_sample 12 (- 0) (-12) (- 180)
     = calculate_haversine_distance libm_sample 12 0 (-12) 180.
Proof.
  exact (haversine_mirror libm_sample 12 0 (-12) 180 sample_sin_odd sample_cos_even).
Defined.

(** X3: on a table with the five input columns, a run that succeeds ends
    with the input table followed by eleven columns, each a function of the
    pickup and drop-off coordinates alone: the distances by rows, the
    projection of (lon, lat), the radians, their sines and cosines, and the
    scaler applied to the projected x and to the projected y. *)
Theorem script_table E data my_data_table out :
  names data = input_columns ->
  run_script E data = Returns (my_data_table, out) ->
  exists pickup_lat pickup_lon dropoff_lat dropoff_lon distance_km x_scaled y_scaled,
    DataFrame data = Returns data
    /\ getitem data "pickup_lat" = Returns pickup_lat
    /\ getitem data "pickup_lon" = Returns pickup_lon
    /\ getitem data "dropoff_lat" = Returns dropoff_lat
    /\ getitem data "dropoff_lon" = Returns dropoff_lon
    /\ apply_rows (calculate_haversine_distance (libm E))
         (to_floats pickup_lat) (to_floats pickup_lon)
         (to_floats dropoff_lat) (to_floats dropoff_lon) = Returns distance_km
    /\ fit_transform (map fst (projected E pickup_lon pickup_lat)) = Returns x_scaled
    /\ fit_transform (map snd (projected E pickup_lon pickup_lat)) = Returns y_scaled
    /\ my_data_table
       = data ++ derived_table E pickup_lat pickup_lon distance_km x_scaled y_scaled
    /\ select my_data_table final_columns = Returns out.
Proof. apply run_script_inversion. Qed.

Lemma script_table_witness :
  exists my_data_table out,
    run_script sample_externals trip_data = Returns (my_data_table, out)
    /\ exists pickup_lat pickup_lon distance_km x_scaled y_scaled,
         my_data_table
         = trip_data
           ++ derived_table sample_externals pickup_lat pickup_lon distance_km x_scaled y_scaled.
Proof.
  do 2 eexists. split; [vm_compute; reflexivity|].
  match goal with
  | |- exists _ _ _ _ _, ?t = _ =>
      destruct (script_table sample_externals trip_data t _ eq_refl
                  ltac:(vm_compute; reflexivity))
        as (c1 & c2 & c3 & c4 & d & xs & ys & _ & _ & _ & _ & _ & _ & _ & _ & H & _)
  end.
  exists c1, c2, d, xs, ys. exact H.
Defined.

(** X4: the distances are computed row by row and keep the order of the
    rows: entry i of distance_km is the haversine distance of row i. *)
Theorem distance_km_by_row E data my_data_table out :
  names data = input_columns ->
  run_script E data = Returns (my_data_table, out) ->
  exists pickup_lat pickup_lon dropoff_lat dropoff_lon distance_km,
    getitem data "pickup_lat" = Returns pickup_lat
    /\ getitem data "pickup_lon" = Returns pickup_lon
    /\ getitem data "dropoff_lat" = Returns dropoff_lat
    /\ getitem data "dropoff_lon" = Returns dropoff_lon
    /\ getitem my_data_table "distance_km" = Returns (FloatColumn distance_km)
    /\ List.length distance_km = nrows data
    /\ forall i, (i < nrows data)%nat ->
         calculate_haversine_distance (libm E)
           (nth i (to_floats pickup_lat) 0) (nth i (to_floats pickup_lon) 0)
           (nth i (to_floats dropoff_lat) 0) (nth i (to_floats dropoff_lon) 0)
         = Returns (nth i distance_km 0).
Proof.
  intros N H.
  destruct (run_script_inversion E data my_data_table out N H)
    as (c1 & c2 & c3 & c4 & d & xs & ys & D & G1 & G2 & G3 & G4 & A & _ & _ & T & _).
  pose proof (DataFrame_column_length _ _ _ _ D G1) as L1.
  pose proof (DataFrame_column_length _ _ _ _ D G2) as L2.
  pose proof (DataFrame_column_length _ _ _ _ D G3) as L3.
  pose proof (DataFrame_column_length _ _ _ _ D G4) as L4.
  assert (Ld : List.length d = nrows data).
  { rewrite (apply_rows_length _ _ _ _ _ _ A); rewrite ?to_floats_length; congruence. }
  exists c1, c2, c3, c4, d. repeat split; try assumption.
  - subst my_data_table. rewrite getitem_app_r by fresh_name.
    reflexivity.
  - intros i Hi. apply (apply_rows_nth _ _ _ _ _ _ A). lia.
Qed.

Lemma distance_km_by_row_witness :
  exists my_data_table out,
    run_script sample_externals trip_data = Returns (my_data_table, out)
    /\ exists distance_km,
         getitem my_data_table "distance_km" = Returns (FloatColumn distance_km)
         /\ List.length distance_km = nrows trip_data.
Proof.
  do 2 eexists. split; [vm_compute; reflexivity|].
  match goal with
  | |- exists _, getitem ?t _ = _ /\ _ =>
      destruct (distance_km_by_row sample_externals trip_data t _ eq_refl
                  ltac:(vm_compute; reflexivity))
        as (c1 & c2 & c3 & c4 & d & _ & _ & _ & _ & G & L & _)
  end.
  exists d. split; assumption.
Defined.

(** X5: a run that succeeds keeps the number of rows: every column of the
    table at the end, and of the table printed, has as many entries as the
    input table has rows. *)
Theorem script_keeps_row_count E data my_data_table out :
  names data = input_columns ->
  run_script E data = Returns (my_data_table, out) ->
  (forall name c, getitem my_data_table name = Returns c -> column_length c = nrows data)
  /\ (forall name c, getitem out name = Returns c -> column_length c = nrows data).
Proof.
  intros N H. pose proof (run_script_row_count E data my_data_table out N H) as R.
  split.
  - intros name c G. apply (R name). apply getitem_In_pair, G.
  - intros name c G.
    destruct (run_script_inversion E data my_data_table out N H)
      as (c1 & c2 & c3 & c4 & d & xs & ys & _ & _ & _ & _ & _ & _ & _ & _ & _ & S).
    pose proof (getitem_In _ _ _ G) as Hin. rewrite (select_names _ _ _ S) in Hin.
    rewrite (select_getitem _ _ _ S NoDup_final_columns name Hin) in G.
    apply (R name). apply getitem_In_pair, G.
Qed.

Lemma script_keeps_row_count_witness :
  exists my_data_table out,
    run_script sample_externals trip_data = Returns (my_data_table, out)
    /\ forall name c, getitem out name = Returns c -> column_length c = 3%nat.
Proof.
  do 2 eexists. split; [vm_compute; reflexivity|].
  match goal with
  | |- forall _ _, getitem ?o _ = _ -> _ =>
      destruct (script_keeps_row_count sample_externals trip_data _ o eq_refl
                  ltac:(vm_compute; reflexivity)) as [_ H]
  end.
  exact H.
Defined.

(** X6: the table printed at the end holds, under each of its ten names, the
    column of the working table; its trip_id, pickup_lat and pickup_lon are
    the input columns. *)
Theorem final_output_values E data my_data_table out :
  names data = input_columns ->
  run_script E data = Returns (my_data_table, out) ->
  (forall name, In name final_columns -> getitem out name = getitem my_data_table name)
  /\ (forall name, In name ["trip_id"; "pickup_lat"; "pickup_lon"] ->
        getitem out name = getitem data name).
Proof.
  intros N H.
  destruct (run_script_inversion E data my_data_table out N H)
    as (c1 & c2 & c3 & c4 & d & xs & ys & _ & _ & _ & _ & _ & _ & _ & _ & T & S).
  assert (P : forall name, In name final_columns ->
                getitem out name = getitem my_data_table name).
  { intros name Hin. apply (select_getitem _ _ _ S NoDup_final_columns name Hin). }
  split; [exact P|].
  intros name Hin. rewrite P.
  - subst my_data_table. apply getitem_app_l. rewrite N.
    cbn [In] in Hin. unfold input_columns. cbn [In]. tauto.
  - cbn [In] in Hin. unfold final_columns. cbn [In]. tauto.
Qed.

Lemma final_output_values_witness :
  exists my_data_table out,
    run_script sample_externals trip_data = Returns (my_data_table, out)
    /\ forall name, In name ["trip_id"; "pickup_lat"; "pickup_lon"] ->
         getitem out name = getitem trip_data name.
Proof.
  do 2 eexists. split; [vm_compute; reflexivity|].
  match goal with
  | |- forall _, _ -> getitem ?o _ = _ =>
      destruct (final_output_values sample_externals trip_data _ o eq_refl
                  ltac:(vm_compute; reflexivity)) as [_ H]
  end.
  exact H.
Defined.

(** X7: one row on which the distance fails ends the whole run: when the
    rows before row i succeed and row i raises, the script raises that
    exception and produces no table. *)
Theorem script_fails_on_failing_row E data pickup_lat pickup_lon dropoff_lat dropoff_lon i e :
  names data = input_columns ->
  DataFrame data = Returns data ->
  getitem data "pickup_lat" = Returns pickup_lat ->
  getitem data "pickup_lon" = Returns pickup_lon ->
  getitem data "dropoff_lat" = Returns dropoff_lat ->
  getitem data "dropoff_lon" = Returns dropoff_lon ->
  (i < nrows data)%nat ->
  (forall j, (j < i)%nat ->
     exists v, calculate_haversine_distance (libm E)
                 (nth j (to_floats pickup_lat) 0) (nth j (to_floats pickup_lon) 0)
                 (nth j (to_floats dropoff_lat) 0) (nth j (to_floats dropoff_lon) 0)
               = Returns v) ->
  calculate_haversine_distance (libm E)
    (nth i (to_floats pickup_lat) 0) (nth i (to_floats pickup_lon) 0)
    (nth i (to_floats dropoff_lat) 0) (nth i (to_floats dropoff_lon) 0) = Raises e ->
  run_script E data = Raises e.
Proof.
  intros _ D G1 G2 G3 G4 Hi Hj He.
  pose proof (DataFrame_column_length _ _ _ _ D G1) as L1.
  pose proof (DataFrame_column_length _ _ _ _ D G2) as L2.
  pose proof (DataFrame_column_length _ _ _ _ D G3) as L3.
  pose proof (DataFrame_column_length _ _ _ _ D G4) as L4.
  unfold run_script. rewrite D. cbn [bind].
  unfold stage_haversine. rewrite G1, G2, G3, G4. cbn [bind].
  rewrite (apply_rows_Raises _ e _ _ _ _ i); rewrite ?to_floats_length; try lia;
    try assumption.
  reflexivity.
Qed.

Lemma script_fails_on_failing_row_witness :
  run_script sample_externals
    [ ("trip_id", IntColumn [1; 2]%Z);
      ("pickup_lat", FloatColumn [12; infinity]);
      ("pickup_lon", FloatColumn [0; 0]);
      ("dropoff_lat", FloatColumn [12; 0]);
      ("dropoff_lon", FloatColumn [0; 0]) ]
  = Raises ValueError.
Proof.
  apply (script_fails_on_failing_row sample_externals _
           (FloatColumn [12; infinity]) (FloatColumn [0; 0])
           (FloatColumn [12; 0]) (FloatColumn [0; 0]) 1 ValueError);
    try reflexivity.
  - cbn [nrows column_length List.length]. lia.
  - intros j Hj. assert (j = 0%nat) by lia. subst j. eexists. vm_compute. reflexivity.
Defined.



(** X9: with the five input columns present, the [print] statements never
    fail: the script with the tables it shows has the outcome of the
    computation alone. *)
Theorem prints_never_fail E data :
  names data = input_columns ->
  (r <- run_script_printing E data ;; Returns (snd r)) = run_script E data.
Proof.
  intros N. unfold run_script_printing, run_script.
  destruct (DataFrame data) as [t0|e] eqn:D; cbn [bind]; [|reflexivity].
  apply DataFrame_Returns in D. subst t0.
  destruct (display_present data ["trip_id"; "pickup_lat"; "pickup_lon"]) as [s1 ->];
    [present_names|]. cbn [bind].
  destruct (stage_haversine E data) as [t1|e] eqn:S1; cbn [bind]; [|reflexivity].
  destruct (stage_haversine_extends _ _ _ N S1) as (c & ->).
  assert (N1 : names (data ++ [("distance_km", c)]) = input_columns ++ ["distance_km"])
    by (rewrite names_app, N; reflexivity).
  destruct (display_present (data ++ [("distance_km", c)]) ["trip_id"; "distance_km"])
    as [s2 ->]; [present_names|]. cbn [bind].
  destruct (stage_projection E _) as [t2|e] eqn:S2; cbn [bind]; [|reflexivity].
  destruct (stage_projection_extends _ _ _ N1 S2) as (cx & cy & ->).
  assert (N2 : names ((data ++ [("distance_km", c)])
                      ++ [("pickup_x_meters", cx); ("pickup_y_meters", cy)])
               = input_columns ++ ["distance_km"; "pickup_x_meters"; "pickup_y_meters"])
    by (rewrite !names_app, N; reflexivity).
  destruct (display_present ((data ++ [("distance_km", c)])
                      ++ [("pickup_x_meters", cx); ("pickup_y_meters", cy)])
              ["trip_id"; "pickup_x_meters"; "pickup_y_meters"]) as [s3 ->];
    [present_names|]. cbn [bind].
  destruct (stage_spherical E _) as [t3|e] eqn:S3; cbn [bind]; [|reflexivity].
  destruct (stage_spherical_extends _ _ _ N2 S3) as (c5 & -> & N5).
  match goal with |- context [display ?t _] =>
    assert (N3 : names t = input_columns
                 ++ ["distance_km"; "pickup_x_meters"; "pickup_y_meters"]
                 ++ spherical_columns)
      by (rewrite !names_app, N, N5; reflexivity);
    destruct (display_present t
      ["trip_id"; "pickup_lon_sin"; "pickup_lon_cos"; "pickup_lat_sin"; "pickup_lat_cos"])
      as [s4 ->]
  end.
  { rewrite N3. unfold input_columns, spherical_columns. cbn [app In]. intros n F.
    repeat (destruct F as [F|F]; [subst n; tauto|]). contradiction. }
  cbn [bind].
  destruct (stage_scaling _) as [t4|e] eqn:S4; cbn [bind]; [|reflexivity].
  destruct (stage_scaling_extends _ _ N3 S4) as (sx & sy & ->).
  match goal with |- context [display ?t _] =>
    destruct (display_present t ["trip_id"; "pickup_x_scaled"; "pickup_y_scaled"]) as [s5 ->]
  end.
  { rewrite names_app, N3. unfold input_columns, spherical_columns. cbn [names map fst app In].
    intros n F. repeat (destruct F as [F|F]; [subst n; tauto|]). contradiction. }
  cbn [bind].
  destruct (final_output _) as [o|e]; reflexivity.
Qed.

Lemma prints_never_fail_witness :
  (r <- run_script_printing sample_externals trip_data ;; Returns (snd r))
  = run_script sample_externals trip_data.
Proof. exact (prints_never_fail sample_externals trip_data eq_refl). Defined.
